(** * dynadapt: adaptive loudness averaging

    A shallow embedding of the two scripts of the repository,
    [dyn_adapt2.py] (the simple variant) and [dyn_adapt4.py] (the refined
    variant with a maximum-gain clamp and a second, half-block-shifted
    phase), and the properties of their block pipeline.

    Conventions of the embedding:
    - Python [int] is [Z]; [float64] is idealised as a real number ([R],
      or [Q] where the code converts it back to an [int]), so neither
      rounding nor the finite range of [float64] is modelled.  A loudness
      value may also be an infinity (the meter reports [-inf] for gated
      silence): [xreal].
    - A [float] typed on the command line may also be [inf], [-inf] or
      [nan], which [argparse] accepts: [pyfloat].
    - A numpy array of shape [(n, channels)] is a list of [n] rows, each a
      list of [channels] samples.
    - A Python exception, or a buffer that leaves the finite reals, ends a
      run: [outcome]. *)

From Stdlib Require Import ZArith QArith Reals Lra Lia String Ascii.
From Stdlib Require Import DecimalString DecimalNat.
From stdpp Require Import base list.

(** ** Outcomes of a run *)

Inductive fault : Type :=
| ZeroDivisionError   (* [samples / blocksize] with [blocksize = 0] *)
| IndexError          (* a row or column index outside an array *)
| ValueError          (* [int(nan)]; [int(s)] of more than 4300 digits *)
| OverflowError       (* [int(inf)] *)
| NonFinite.          (* some sample became [inf] or [nan]: outside [R] *)

Inductive outcome (A : Type) : Type :=
| Ok (a : A)
| Stop (f : fault).

Arguments Ok {A} a.
Arguments Stop {A} f.

(** Sequencing, with stdpp's notation [x ← m; k]. *)
#[global] Instance outcome_bind : MBind outcome := fun A B k m =>
  match m with
  | Ok a => k a
  | Stop f => Stop f
  end.

(** ** Python sequences *)

Definition len {A : Type} (l : list A) : Z := Z.of_nat (length l).

(** [range(0, n)]. *)
Definition range (n : Z) : list Z := Z.of_nat <$> seq 0 (Z.to_nat n).

(** [for x in xs: s = body(x, s)], stopping at the first fault. *)
Fixpoint for_each {S : Type} (xs : list Z) (body : Z -> S -> outcome S) (s : S)
  : outcome S :=
  match xs with
  | [] => Ok s
  | x :: xs' => s' ← body x s; for_each xs' body s'
  end.

(** A slice bound, as Python clips it: a negative bound counts from the
    end, and every bound is clipped into [0 .. len]. *)
Definition clip_bound (n i : Z) : nat :=
  Z.to_nat (if (i <? 0)%Z then Z.max 0 (n + i) else Z.min i n).

(** [l[i:]], [l[:j]] and [l[i:j]]. *)
Definition slice_from {A : Type} (l : list A) (i : Z) : list A :=
  drop (clip_bound (len l) i) l.

Definition slice_to {A : Type} (l : list A) (j : Z) : list A :=
  take (clip_bound (len l) j) l.

Definition slice {A : Type} (l : list A) (i j : Z) : list A :=
  take (clip_bound (len l) j - clip_bound (len l) i) (drop (clip_bound (len l) i) l).

(** An index [l[i]]: a negative index counts from the end, anything
    outside [-len .. len-1] raises. *)
Definition py_index (n i : Z) : outcome nat :=
  if ((0 <=? i) && (i <? n))%Z then Ok (Z.to_nat i)
  else if ((- n <=? i) && (i <? 0))%Z then Ok (Z.to_nat (n + i))
  else Stop IndexError.

(** [int(x)] of a rational: truncation toward zero. *)
Definition int_of_Q (q : Q) : Z := Z.quot (Qnum q) (Zpos (Qden q)).

(** [int(a / b)] of two integers: true division, then truncation. *)
Definition int_div (a b : Z) : outcome Z :=
  if (b =? 0)%Z then Stop ZeroDivisionError else Ok (Z.quot a b).

(** ** Floats of the command line

    [argparse] converts a [type=float] argument with [float(...)], which
    also accepts [inf], [-inf] and [nan]. *)

Inductive pyfloat (A : Type) : Type :=
| Num (x : A)             (* a finite value *)
| Inf (negative : bool)   (* [inf], or [-inf] when [negative] *)
| NaN.

Arguments Num {A} x.
Arguments Inf {A} negative.
Arguments NaN {A}.

(** [x <= y]: every comparison with [nan] is False. *)
Definition float_le (x y : pyfloat Q) : bool :=
  match x, y with
  | NaN, _ | _, NaN => false
  | Num a, Num b => Qle_bool a b
  | Inf true, _ => true           (* [-inf <= y] *)
  | _, Inf false => true          (* [x <= inf] *)
  | Inf false, _ => false         (* [inf <= y] for [y < inf] *)
  | Num _, Inf true => false      (* [x <= -inf] for [x > -inf] *)
  end.

(** [abs(x)]. *)
Definition float_abs (x : pyfloat R) : pyfloat R :=
  match x with
  | Num r => Num (Rabs r)
  | Inf _ => Inf false
  | NaN => NaN
  end.

(** [n * x] of an [int] and a float: [0 * inf] is [nan]. *)
Definition int_times (n : Z) (x : pyfloat Q) : pyfloat Q :=
  match x with
  | Num q => Num (inject_Z n * q)%Q
  | Inf negative => if (n =? 0)%Z then NaN else Inf (xorb negative (n <? 0)%Z)
  | NaN => NaN
  end.

(** [int(x)] of a float: truncation toward zero; [int(nan)] raises
    [ValueError] and [int(inf)] raises [OverflowError]. *)
Definition int_of_float (x : pyfloat Q) : outcome Z :=
  match x with
  | Num q => Ok (int_of_Q q)
  | Inf _ => Stop OverflowError
  | NaN => Stop ValueError
  end.

(** ** Loudness values *)

Inductive xreal : Type :=
| NegInf
| Fin (r : R)
| PosInf.

(** [a - l] for a finite [a]. *)
Definition xsub_from (a : R) (l : xreal) : xreal :=
  match l with
  | NegInf => PosInf
  | Fin r => Fin (a - r)
  | PosInf => NegInf
  end.

Definition xabs (l : xreal) : xreal :=
  match l with
  | Fin r => Fin (Rabs r)
  | _ => PosInf
  end.

(** [l > a] for a finite [a]. *)
Definition xgt (l : xreal) (a : R) : bool :=
  match l with
  | NegInf => false
  | Fin r => if Rgt_dec r a then true else false
  | PosInf => true
  end.

(** The order of the extended reals. *)
Definition xle (a b : xreal) : Prop :=
  match a, b with
  | NegInf, _ => True
  | _, PosInf => True
  | Fin x, Fin y => (x <= y)%R
  | _, _ => False
  end.

(** ** Audio buffers *)

Abbreviation frame := (list R).
Abbreviation buffer := (list (list R)).

(** [gain * data] of numpy: every sample times the scalar. *)
Definition scale (gain : R) (data : buffer) : buffer :=
  (fun row : frame => Rmult gain <$> row) <$> data.

(** Every row of the array has [channels] columns. *)
Definition well_shaped (channels : Z) (a : buffer) : Prop :=
  Forall (fun row => len row = channels) a.

(** [a[i][ch]] and [a[i][ch] = v]. *)
Definition cell_get (a : buffer) (i ch : Z) : outcome R :=
  k ← py_index (len a) i;
  let row := default [] (a !! k) in
  c ← py_index (len row) ch;
  Ok (default 0%R (row !! c)).

Definition cell_set (a : buffer) (i ch : Z) (v : R) : outcome buffer :=
  k ← py_index (len a) i;
  let row := default [] (a !! k) in
  c ← py_index (len row) ch;
  Ok (<[k := <[c := v]> row]> a).

(** The sample at row [i], column [c], if there is one. *)
Definition sample (a : buffer) (i c : nat) : option R :=
  a !! i ≫= (fun row : frame => row !! c).

(** ** pyloudnorm *)

(** Modelled from the spec: [pyloudnorm.normalize.loudness(data,
    input_loudness, target_loudness)] is library code, not part of the
    repository.  It computes [delta = target - input] and multiplies every
    sample by the linear factor [10^(delta/20)].  For [input = +inf] the
    factor is [0.0]; for [input = -inf] it is [inf], and the samples leave
    the finite reals. *)
Definition delta_loudness (input_loudness : xreal) (target_loudness : R) : xreal :=
  xsub_from target_loudness input_loudness.

Definition linear_gain (delta : R) : R := Rpower 10 (delta / 20).

Definition normalize_loudness (data : buffer) (input_loudness : xreal)
  (target_loudness : R) : outcome buffer :=
  match delta_loudness input_loudness target_loudness with
  | Fin delta => Ok (scale (linear_gain delta) data)
  | NegInf => Ok (scale 0 data)
  | PosInf => Stop NonFinite
  end.

(** ** The crossfade loop

    The same text in both scripts ([dyn_adapt2.py] 148-154,
    [dyn_adapt4.py] 175-181 and 258-264):
<<
    for jdx in range(0, fadesize):
        mult = jdx * (1.0 / fadesize)
        inv_mult = 1.0 - mult
        for ch in range(0, channels):
            prev_audio[jdx + blocksize - fadesize][ch] =
              inv_mult * prev_audio[jdx + blocksize - fadesize][ch]
              + mult * sub_audio[jdx][ch]
>> *)

Definition crossfade_cell (blocksize fadesize : Z) (sub_audio : buffer) (jdx ch : Z)
  (prev_audio : buffer) : outcome buffer :=
  let mult := (IZR jdx * (1 / IZR fadesize))%R in
  let inv_mult := (1 - mult)%R in
  p ← cell_get prev_audio (jdx + blocksize - fadesize) ch;
  s ← cell_get sub_audio jdx ch;
  cell_set prev_audio (jdx + blocksize - fadesize) ch (inv_mult * p + mult * s)%R.

Definition crossfade_row (channels blocksize fadesize : Z) (sub_audio : buffer)
  (jdx : Z) (prev_audio : buffer) : outcome buffer :=
  for_each (range channels) (crossfade_cell blocksize fadesize sub_audio jdx) prev_audio.

Definition crossfade_into (channels blocksize fadesize : Z) (sub_audio prev_audio : buffer)
  : outcome buffer :=
  for_each (range fadesize) (crossfade_row channels blocksize fadesize sub_audio)
    prev_audio.

(** ** Block windows

    The same text in both scripts ([dyn_adapt2.py] 121-132,
    [dyn_adapt4.py] 140-151 and 223-234): the window of block [idx] starts
    [fadesize] samples before the block (clamped to 0) and stops at the
    end of the block; the last block is the open slice [audio[start_idx:]]. *)

Record window : Type := Window {
  w_start : Z;
  w_stop : option Z   (* [None]: the open slice, up to the end of the buffer *)
}.

Definition block_window (blocksize fadesize block_count idx : Z) : window :=
  let start_idx := (idx * blocksize - fadesize)%Z in
  let stop_idx := (start_idx + blocksize + fadesize)%Z in
  let start_idx := if (start_idx <? 0)%Z then 0%Z else start_idx in
  if (idx =? block_count - 1)%Z then Window start_idx None
  else Window start_idx (Some stop_idx).

Definition take_window (audio : buffer) (w : window) : buffer :=
  match w_stop w with
  | None => slice_from audio (w_start w)
  | Some stop_idx => slice audio (w_start w) stop_idx
  end.

(** The index at which a window stops in a buffer of [samples] frames. *)
Definition window_stop (samples : Z) (w : window) : Z :=
  match w_stop w with
  | None => samples
  | Some stop_idx => stop_idx
  end.

(** The windows the block loop visits, in order. *)
Definition block_windows (samples blocksize fadesize : Z) : outcome (list window) :=
  block_count ← int_div samples blocksize;
  Ok (block_window blocksize fadesize block_count <$> range block_count).

(** ** Input files and the end of a run *)

Record sound_file : Type := SoundFile {
  sf_samplerate : Z;
  sf_channels : Z;
  sf_frames : buffer    (* one row per frame, [sf_channels] samples each *)
}.

(** [audio.shape] after [soundfile.read(..., always_2d=True)]: the array
    has two dimensions whatever the channel count. *)
Definition shape (f : sound_file) : list Z := [len (sf_frames f); sf_channels f].

Inductive run : Type :=
| Exited (message : string)     (* [print(message); exit()]: nothing written *)
| Failed (f : fault)
| Written (name : string) (audio : buffer) (samplerate : Z).

(** The channel check ([dyn_adapt2.py] 80-87, [dyn_adapt4.py] 96-103):
    the number of channels when the run goes on, or the message printed
    before [exit()]. *)
Definition channel_check (audio_shape : list Z) : string + Z :=
  if (1 <? len audio_shape)%Z then
    let channels := default 0%Z (audio_shape !! 1%nat) in
    if (2 <? channels)%Z then inl "Only stereo audio is currently supported"%string
    else inr channels
  else inl "Mono files are not supported"%string.

(** [filename[:-ext_length] + '_new.wav'] with [ext_length = 4]. *)
Definition new_name (filename : string) : string :=
  let ext_length := 4%Z in
  (string_of_list_ascii (slice_to (list_ascii_of_string filename) (- ext_length))
   ++ "_new.wav")%string.

(** ** dyn_adapt4.py: the refined variant *)

Module DynAdapt4.

(** The parsed command line.  [-q] only silences the progress text, which
    is not modelled.  [-d] and [-l] are [type=int]; [-m] and [-x] are
    [type=float] and may be [inf], [-inf] or [nan]. *)
Record args : Type := Args {
  input : string;
  division : Z;           (* -d, default 8 *)
  loudness : Z;           (* -l, default -16 *)
  maxgain : pyfloat R;    (* -m, default 2.0 *)
  nophase2 : bool;        (* -p *)
  crossfade : pyfloat Q   (* -x, default 0.6 *)
}.

Definition default_loudness : Z := (-16)%Z.
Definition default_crossfade : pyfloat Q := Num (6 # 10)%Q.

(** Lines 51-78: the values the run uses. *)
Definition effective_division (a : args) : Z :=
  if (division a mod 2 =? 0)%Z then division a else (division a + 1)%Z.

(** Lines 60-65.  A [nan] passes both comparisons and stays. *)
Definition xfade (a : args) : pyfloat Q :=
  if float_le (crossfade a) (Num 0%Q) || float_le (Num 1%Q) (crossfade a)
  then default_crossfade
  else crossfade a.

Definition final_loudness (a : args) : Z :=
  if (0 <=? loudness a)%Z then default_loudness else loudness a.

(** Line 78: [abs(nan)] is [nan], [abs(-inf)] is [inf]. *)
Definition max_gain (a : args) : pyfloat R := float_abs (maxgain a).

Definition blocksize (a : args) (samplerate : Z) : Z :=
  (effective_division a * samplerate)%Z.

(** Line 112: [int(blocksize * xfade)], which raises for a [nan] ratio. *)
Definition fadesize (a : args) (samplerate : Z) : outcome Z :=
  int_of_float (int_times (blocksize a samplerate) (xfade a)).

(** Lines 160-166: the loudness handed to the normaliser, limited so that
    the gain stays within [max_gain].  For a finite [max_gain] this is the
    text of the script.  [abs(...) > inf] and [abs(...) > nan] are False,
    so with such a [max_gain] the loudness is kept as measured;
    [abs(...) > -inf] is True, and [final_loudness + -inf] is [-inf],
    [final_loudness - -inf] is [inf]. *)
Definition limit_loudness (final_loudness : R) (max_gain : pyfloat R) (loudness : xreal)
  : xreal :=
  match max_gain with
  | Num max_gain =>
    if xgt (xabs (xsub_from final_loudness loudness)) max_gain then
      if xgt loudness final_loudness then Fin (final_loudness + max_gain)
      else Fin (final_loudness - max_gain)
    else loudness
  | Inf false | NaN => loudness
  | Inf true => if xgt loudness final_loudness then NegInf else PosInf
  end.

(** The gain in dB that lines 160-168 apply to a block of the given
    measured loudness. *)
Definition applied_gain (final_loudness : R) (max_gain : pyfloat R) (loudness : xreal)
  : xreal :=
  delta_loudness (limit_loudness final_loudness max_gain loudness) final_loudness.

(** Lines 160-168, from the measured loudness to the corrected block. *)
Definition correct (final_loudness : R) (max_gain : pyfloat R) (loudness : xreal)
  (sub_audio : buffer) : outcome buffer :=
  let loudness := limit_loudness final_loudness max_gain loudness in
  normalize_loudness sub_audio loudness final_loudness.

Section Pipeline.

(** [meter.integrated_loudness] of pyloudnorm, an external collaborator:
    any function from a block to a loudness.  (The library refuses blocks
    shorter than 0.4 s; blocks are at least one division long.) *)
Variable meter : buffer -> xreal.
Variable final_loudness : R.
Variable max_gain : pyfloat R.
Variables (channels blocksize fadesize : Z).

(** One iteration of the block loop (lines 135-194, and again 218-277),
    on the state [(new_audio, prev_audio)]. *)
Definition block_step (audio : buffer) (block_count idx : Z)
  (st : buffer * buffer) : outcome (buffer * buffer) :=
  let '(new_audio, prev_audio) := st in
  let sub_audio := take_window audio (block_window blocksize fadesize block_count idx) in
  let loudness := meter sub_audio in
  sub_audio ← correct final_loudness max_gain loudness sub_audio;
  if (0 <? idx)%Z then
    prev_audio ← crossfade_into channels blocksize fadesize sub_audio prev_audio;
    let sub_audio := slice_from sub_audio fadesize in
    let new_audio := new_audio ++ prev_audio in
    Ok (new_audio, sub_audio)
  else Ok (new_audio, sub_audio).

(** A whole phase: the loop, then the held block is appended.  The state
    comes from the caller because [prev_audio] is a global of the script:
    phase 2 starts with the block phase 1 left in it. *)
Definition phase (audio : buffer) (st : buffer * buffer) : outcome (buffer * buffer) :=
  block_count ← int_div (len audio) blocksize;
  '(new_audio, prev_audio) ← for_each (range block_count) (block_step audio block_count) st;
  Ok (new_audio ++ prev_audio, prev_audio).

(** A single phase pass on its own: the loop run from the empty buffers
    the script starts with. *)
Definition run_phase (audio : buffer) : outcome buffer :=
  '(new_audio, _) ← phase audio ([], []);
  Ok new_audio.

(** Lines 133-287: the stitched buffer before the final normalisation. *)
Definition stitch (nophase2 : bool) (audio : buffer) : outcome buffer :=
  '(new_audio, prev_audio) ← phase audio ([], []);
  if nophase2 then Ok new_audio
  else
    let shift_audio := slice_from new_audio (Z.quot blocksize 2) in
    '(new_shift_audio, _) ← phase shift_audio ([], prev_audio);
    Ok (slice_to new_audio (Z.quot blocksize 2) ++ new_shift_audio).

End Pipeline.

(** The stitched buffer of a run on a decoded file (lines 105-287). *)
Definition stitched (meter : buffer -> xreal) (a : args) (samplerate channels : Z)
  (audio : buffer) : outcome buffer :=
  fadesize ← fadesize a samplerate;
  stitch meter (IZR (final_loudness a)) (max_gain a) channels
    (blocksize a samplerate) fadesize (nophase2 a) audio.

(** The script, from the file-existence test to [soundfile.write]. *)
Definition main (meter : buffer -> xreal) (fs : string -> option sound_file) (a : args)
  : run :=
  let filename := input a in
  match fs filename with
  | None => Exited (filename ++ " doesn't appear to exist" ++ String "010"%char "")
  | Some f =>
    match channel_check (shape f) with
    | inl message => Exited message
    | inr channels =>
      let result :=
        new_audio ← stitched meter a (sf_samplerate f) channels (sf_frames f);
        let loudness := meter new_audio in
        normalize_loudness new_audio loudness (IZR (final_loudness a)) in
      match result with
      | Ok new_audio => Written (new_name filename) new_audio (sf_samplerate f)
      | Stop e => Failed e
      end
    end
  end.

End DynAdapt4.

(** ** dyn_adapt2.py: the simple variant *)

Module DynAdapt2.

(** What the scan of [sys.argv] leaves: [division] (default 9) and
    [final_loudness] (default -23.0); [seconds] is always [True] and
    [xfade] is the constant 0.6.  The scan itself, with the usage message
    for a missing file argument, is [parse_argv] below; the stem plot of
    the gains is not modelled. *)
Record settings : Type := Settings {
  input : string;
  division : Z;
  final_loudness : R
}.

Definition xfade : Q := (6 # 10)%Q.

Definition blocksize (s : settings) (samplerate : Z) : Z := (division s * samplerate)%Z.

Definition fadesize (s : settings) (samplerate : Z) : Z :=
  int_of_Q (inject_Z (blocksize s samplerate) * xfade).

Section Pipeline.

Variable meter : buffer -> xreal.
Variable final_loudness : R.
Variables (channels blocksize fadesize : Z).

(** One iteration of the block loop (lines 117-167). *)
Definition block_step (audio : buffer) (division idx : Z)
  (st : buffer * buffer) : outcome (buffer * buffer) :=
  let '(new_audio, prev_audio) := st in
  let sub_audio := take_window audio (block_window blocksize fadesize division idx) in
  let loudness := meter sub_audio in
  sub_audio ← normalize_loudness sub_audio loudness final_loudness;
  if (0 <? idx)%Z then
    prev_audio ← crossfade_into channels blocksize fadesize sub_audio prev_audio;
    let sub_audio := slice_from sub_audio fadesize in
    let new_audio := new_audio ++ prev_audio in
    Ok (new_audio, sub_audio)
  else Ok (new_audio, sub_audio).

(** Lines 92-171: the stitched buffer before the final normalisation. *)
Definition stitch (audio : buffer) : outcome buffer :=
  division ← int_div (len audio) blocksize;
  '(new_audio, prev_audio) ← for_each (range division) (block_step audio division) ([], []);
  Ok (new_audio ++ prev_audio).

End Pipeline.

Definition stitched (meter : buffer -> xreal) (s : settings) (samplerate channels : Z)
  (audio : buffer) : outcome buffer :=
  stitch meter (final_loudness s) channels (blocksize s samplerate) (fadesize s samplerate)
    audio.

Definition main (meter : buffer -> xreal) (fs : string -> option sound_file) (s : settings)
  : run :=
  let filename := input s in
  match fs filename with
  | None => Exited (filename ++ " doesn't appear to exist" ++ String "010"%char "")
  | Some f =>
    match channel_check (shape f) with
    | inl message => Exited message
    | inr channels =>
      let result :=
        new_audio ← stitched meter s (sf_samplerate f) channels (sf_frames f);
        let loudness := meter new_audio in
        normalize_loudness new_audio loudness (final_loudness s) in
      match result with
      | Ok new_audio => Written (new_name filename) new_audio (sf_samplerate f)
      | Stop e => Failed e
      end
    end
  end.

End DynAdapt2.

(** ** The block planner, by its inputs

    [samples] frames at [samplerate] Hz, blocks of [division] seconds,
    crossfade ratio [xfade]. *)
Definition plan (samples samplerate division : Z) (xfade : Q) : outcome (list window) :=
  let blocksize := (division * samplerate)%Z in
  let fadesize := int_of_Q (inject_Z blocksize * xfade) in
  block_windows samples blocksize fadesize.

(** ** Readings of the specification, to compare the code with *)

(** The number of windows the specification states: [ceil(N / blocksize)]. *)
Definition ceil_div (n d : Z) : Z := (- ((- n) / d))%Z.

(** The dual-phase composition as the specification words it: phase 2 is a
    phase pass on the input buffer without its first half block. *)
Definition claimed_dual_phase (meter : buffer -> xreal) (final_loudness max_gain : R)
  (channels blocksize fadesize : Z) (audio : buffer) : outcome buffer :=
  let run :=
    DynAdapt4.run_phase meter final_loudness (Num max_gain) channels blocksize fadesize in
  phase1 ← run audio;
  phase2 ← run (slice_from audio (Z.quot blocksize 2));
  Ok (slice_to phase1 (Z.quot blocksize 2) ++ phase2).

(** The name without its extension: everything before the last dot. *)
Fixpoint after_dot (s : list ascii) : option (list ascii) :=
  match s with
  | [] => None
  | c :: s' => if Ascii.eqb c "."%char then Some s' else after_dot s'
  end.

Definition stem (filename : string) : string :=
  match after_dot (rev (list_ascii_of_string filename)) with
  | Some r => string_of_list_ascii (rev r)
  | None => filename
  end.

(** The output name as the specification words it: the extension, of any
    length, replaced by [_new.wav]. *)
Definition claimed_new_name (filename : string) : string :=
  (stem filename ++ "_new.wav")%string.

(** ** A stand-in meter

    The loudness meter is an external collaborator; the pipeline takes it
    as a function.  Concrete runs below use a sample-peak level meter:
    the level of the largest sample magnitude in dB, and [-inf] for a
    block of zeros. *)
Definition peak (a : buffer) : R :=
  foldr (fun (row : frame) acc => foldr (fun x acc => Rmax (Rabs x) acc) acc row) 0%R a.

Definition log10 (x : R) : R := (ln x / ln 10)%R.

Definition peak_meter (a : buffer) : xreal :=
  if Rgt_dec (peak a) 0 then Fin (20 * log10 (peak a)) else NegInf.

(** A measured loudness whose gap to the target the clamp lets through. *)
Definition within_max_gain (final_loudness max_gain : R) (loudness : xreal) : Prop :=
  match loudness with
  | Fin m => (Rabs (final_loudness - m) <= max_gain)%R
  | _ => False
  end.

(** ** The crossfade loop in closed form *)

(** The blend of one row of the held block with one row of the current
    block, at fade offset [jdx]. *)
Definition blend_row (fadesize jdx : Z) (prev_row sub_row : frame) : frame :=
  zip_with (fun p s => ((1 - IZR jdx * (1 / IZR fadesize)) * p
                        + IZR jdx * (1 / IZR fadesize) * s)%R) prev_row sub_row.

(** [prev_audio] after the first [j] rounds of the crossfade loop. *)
Fixpoint blended (blocksize fadesize : Z) (sub_audio prev_audio : buffer) (j : nat)
  : buffer :=
  match j with
  | O => prev_audio
  | S j' =>
    let k := Z.to_nat (Z.of_nat j' + blocksize - fadesize) in
    <[k := blend_row fadesize (Z.of_nat j')
             (default [] (prev_audio !! k)) (default [] (sub_audio !! j'))]>
      (blended blocksize fadesize sub_audio prev_audio j')
  end.

(** The length of the block held after block [idx] of a buffer of
    [samples] frames: a whole block, or what is left for the last one. *)
Definition held_len (samples blocksize idx : Z) : Z :=
  if (idx =? Z.quot samples blocksize - 1)%Z then (samples - idx * blocksize)%Z
  else blocksize.


(** ** The end of a run: final normalisation and peak report *)

(** [dyn_adapt4.py] 293-295, [dyn_adapt2.py] 175-177: one gain for the
    whole stitched buffer, from its own loudness, with no clamp. *)
Definition final_normalize (meter : buffer -> xreal) (final_loudness : R)
  (new_audio : buffer) : outcome buffer :=
  let loudness := meter new_audio in
  normalize_loudness new_audio loudness final_loudness.

(** [numpy.min] and [numpy.max] of the whole array; [None] is the
    [ValueError] numpy raises for an array without elements. *)
Definition np_min (a : buffer) : option R :=
  match concat a with
  | [] => None
  | x :: xs => Some (foldl Rmin x xs)
  end.

Definition np_max (a : buffer) : option R :=
  match concat a with
  | [] => None
  | x :: xs => Some (foldl Rmax x xs)
  end.

(** Python's [max(x, y)]: [y] only when [y > x]. *)
Definition py_max (x y : R) : R := if Rgt_dec y x then y else x.

(** [max(abs(numpy.min(new_audio)), numpy.max(new_audio))]
    ([dyn_adapt4.py] 298, [dyn_adapt2.py] 179). *)
Definition peak_value (new_audio : buffer) : option R :=
  lo ← np_min new_audio;
  hi ← np_max new_audio;
  Some (py_max (Rabs lo) hi).

(** [peak_dB = 20.0 * numpy.log10(...)]: [-inf] for a peak of zero.  (The
    argument is never negative, so the [nan] of [log10] does not arise.) *)
Definition peak_dB (new_audio : buffer) : option xreal :=
  p ← peak_value new_audio;
  Some (if Rgt_dec p 0 then Fin (20 * log10 p) else NegInf).

(** ** The block loop, whatever the correction

    The two scripts' loops differ in the correction of a block only; this
    is their common shape, for the invariants both keep. *)
Definition generic_step (corr : buffer -> outcome buffer)
  (channels blocksize fadesize : Z) (audio : buffer) (block_count idx : Z)
  (st : buffer * buffer) : outcome (buffer * buffer) :=
  let '(new_audio, prev_audio) := st in
  let sub_audio := take_window audio (block_window blocksize fadesize block_count idx) in
  sub_audio ← corr sub_audio;
  if (0 <? idx)%Z then
    prev_audio ← crossfade_into channels blocksize fadesize sub_audio prev_audio;
    let sub_audio := slice_from sub_audio fadesize in
    let new_audio := new_audio ++ prev_audio in
    Ok (new_audio, sub_audio)
  else Ok (new_audio, sub_audio).

(** [y] is [x] times a factor that satisfies [P]. *)
Definition sample_gain (P : R -> Prop) (x y : R) : Prop :=
  exists k, P k /\ y = (k * x)%R.

(** [b] is [a] with every sample multiplied by some factor that
    satisfies [P] (a factor of its own for each sample). *)
Definition gained (P : R -> Prop) (a b : buffer) : Prop :=
  Forall2 (Forall2 (sample_gain P)) a b.

(** A set of factors closed under the blends of the crossfade. *)
Definition convex (P : R -> Prop) : Prop :=
  forall k1 k2 w, P k1 -> P k2 -> (0 <= w <= 1)%R -> P ((1 - w) * k1 + w * k2)%R.

(** [corr] multiplies the block [w] by one factor that satisfies [P]. *)
Definition corrects (P : R -> Prop) (corr : buffer -> outcome buffer) (w : buffer) : Prop :=
  exists k, P k /\ corr w = Ok (scale k w).

(** The factors a block may get from the refined correction. *)
Definition within_db (g : R) (k : R) : Prop :=
  (linear_gain (- g) <= k <= linear_gain g)%R.

(** ** dyn_adapt2.py: the scan of the command line (lines 22-68)

    Arguments are strings of code points below 256.  The patterns are
    literal text followed by the group [(\d+)], compiled with IGNORECASE. *)

Definition is_digit (c : ascii) : bool :=
  ((48 <=? nat_of_ascii c) && (nat_of_ascii c <=? 57))%nat.

(** Upper-case letters as their lower case: what IGNORECASE compares. *)
Definition fold_case (c : ascii) : ascii :=
  if ((65 <=? nat_of_ascii c) && (nat_of_ascii c <=? 90))%nat
  then ascii_of_nat (nat_of_ascii c + 32) else c.

(** The literal part of a pattern at the start of [s]: what follows it. *)
Fixpoint match_literal (literal s : list ascii) : option (list ascii) :=
  match literal, s with
  | [], _ => Some s
  | p :: literal', c :: s' =>
    if Ascii.eqb (fold_case p) (fold_case c) then match_literal literal' s' else None
  | _ :: _, [] => None
  end.

(** [\d+] is greedy: all the digits at the start of [s]. *)
Fixpoint leading_digits (s : list ascii) : list ascii :=
  match s with
  | c :: s' => if is_digit c then c :: leading_digits s' else []
  | [] => []
  end.

(** The pattern at the start of [s]: group 1, when it matches. *)
Definition match_here (literal s : list ascii) : option (list ascii) :=
  rest ← match_literal literal s;
  match leading_digits rest with
  | [] => None
  | ds => Some ds
  end.

(** [regex.search]: group 1 of the leftmost match. *)
Fixpoint search (literal s : list ascii) : option (list ascii) :=
  match match_here literal s with
  | Some ds => Some ds
  | None =>
    match s with
    | [] => None
    | _ :: s' => search literal s'
    end
  end.

(** [sys.int_max_str_digits]: the longest digit string [int] converts
    (CPython 3.11 and later, and the patched releases before it). *)
Definition int_max_str_digits : nat := 4300.

(** The value of a string of decimal digits. *)
Definition digits_value (ds : list ascii) : Z :=
  foldl (fun acc c => 10 * acc + (Z.of_nat (nat_of_ascii c) - 48))%Z 0%Z ds.

(** [int(match.group(1))]: the value of the digits, or [ValueError] for
    more than [int_max_str_digits] of them (leading zeros count). *)
Definition int_of_digits (ds : list ascii) : outcome Z :=
  if (int_max_str_digits <? length ds)%nat then Stop ValueError
  else Ok (digits_value ds).

(** The body of the loop over [sys.argv[2:]] (lines 56-68); the pattern
    [div:(\d+)s] only sets [seconds], which is [True] already. *)
Definition scan_arg (s : DynAdapt2.settings) (arg : string) : outcome DynAdapt2.settings :=
  let chars := list_ascii_of_string arg in
  s ← match search (list_ascii_of_string "div:") chars with
      | Some ds =>
        division ← int_of_digits ds;
        Ok (DynAdapt2.Settings (DynAdapt2.input s) division (DynAdapt2.final_loudness s))
      | None => Ok s
      end;
  match search (list_ascii_of_string "loudness:-") chars with
  | Some ds =>
    n ← int_of_digits ds;
    Ok (DynAdapt2.Settings (DynAdapt2.input s) (DynAdapt2.division s) (IZR (- n)))
  | None => Ok s
  end.

(** [for arg in sys.argv[2:]], stopping at the first exception. *)
Fixpoint scan_args (s : DynAdapt2.settings) (args : list string)
  : outcome DynAdapt2.settings :=
  match args with
  | [] => Ok s
  | arg :: args' => s' ← scan_arg s arg; scan_args s' args'
  end.

(** Lines 22-68 without the file test: the usage message when there is no
    file argument, or what the scan of the other arguments gives. *)
Definition parse_argv (argv : list string) : string + outcome DynAdapt2.settings :=
  if (len argv <? 2)%Z then inl "python dyn_adapt.py file div:xx loudness:-xx"%string
  else
    let filename := default ""%string (argv !! 1%nat) in
    inr (scan_args (DynAdapt2.Settings filename 9 (-23)) (drop 2 argv)).

(** The simple script from its command line.  The file test (line 34)
    comes before the scan, so a missing file is reported whatever the
    other arguments are. *)
Definition run_argv (meter : buffer -> xreal) (fs : string -> option sound_file)
  (argv : list string) : run :=
  match parse_argv argv with
  | inl message => Exited message
  | inr scanned =>
    let filename := default ""%string (argv !! 1%nat) in
    match fs filename with
    | None => Exited (filename ++ " doesn't appear to exist" ++ String "010"%char "")
    | Some _ =>
      match scanned with
      | Ok s => DynAdapt2.main meter fs s
      | Stop e => Failed e
      end
    end
  end.

(** The decimal digits of a natural number, as [str(n)] prints them. *)
Definition decimal (n : nat) : string := NilEmpty.string_of_uint (Nat.to_uint n).

(** * Properties *)

(** ** Loops, ranges and indices *)

Section lists.
Local Open Scope Z_scope.

Lemma bind_ok {A B} (a : A) (k : A -> outcome B) : (Ok a ≫= k) = k a.
Proof. done. Qed.

Lemma len_nonneg {A} (l : list A) : 0 <= len l.
Proof. unfold len. lia. Qed.

Lemma len_app {A} (a b : list A) : len (a ++ b) = len a + len b.
Proof. unfold len. rewrite length_app. lia. Qed.

Lemma range_nonpos n : n <= 0 -> range n = [].
Proof. intros H. unfold range. by replace (Z.to_nat n) with 0%nat by lia. Qed.

Lemma range_succ n : 0 <= n -> range (n + 1) = range n ++ [n].
Proof.
  intros H. unfold range.
  replace (Z.to_nat (n + 1)) with (S (Z.to_nat n)) by lia.
  rewrite seq_S, fmap_app. simpl. by rewrite Z2Nat.id.
Qed.

Lemma range_length n : length (range n) = Z.to_nat n.
Proof. unfold range. by rewrite length_fmap, length_seq. Qed.

Lemma elem_of_range n i : i ∈ range n <-> 0 <= i < n.
Proof.
  unfold range. rewrite list_elem_of_fmap. split.
  - intros (k & -> & Hk). apply elem_of_seq in Hk. lia.
  - intros H. exists (Z.to_nat i). split; [lia|]. apply elem_of_seq. lia.
Qed.

Lemma range_head n : 0 < n -> exists rest, range n = 0 :: rest.
Proof.
  intros H. unfold range.
  destruct (Z.to_nat n) as [|k] eqn:E; [lia|]. simpl. by eexists.
Qed.

Lemma for_each_app {S} (xs ys : list Z) (body : Z -> S -> outcome S) s :
  for_each (xs ++ ys) body s = for_each xs body s ≫= for_each ys body.
Proof.
  revert s. induction xs as [|x xs IH]; intros s; simpl; [done|].
  destruct (body x s); simpl; [apply IH|done].
Qed.

Lemma for_each_singleton {S} (x : Z) (body : Z -> S -> outcome S) s :
  for_each [x] body s = body x s.
Proof. simpl. by destruct (body x s). Qed.

Lemma for_each_ext {S} (xs : list Z) (f g : Z -> S -> outcome S) s :
  (forall x s', x ∈ xs -> f x s' = g x s') -> for_each xs f s = for_each xs g s.
Proof.
  revert s. induction xs as [|x xs IH]; intros s H; simpl; [done|].
  rewrite (H x s) by left.
  destruct (g x s); simpl; [|done].
  apply IH. intros y s' Hy. apply H. by right.
Qed.

Lemma py_index_in n i : 0 <= i < n -> py_index n i = Ok (Z.to_nat i).
Proof.
  intros H. unfold py_index.
  by replace ((0 <=? i) && (i <? n)) with true by (symmetry; apply andb_true_iff; lia).
Qed.

Lemma cell_get_ok (a : buffer) (i c : nat) (row : frame) (x : R) :
  a !! i = Some row -> row !! c = Some x ->
  cell_get a (Z.of_nat i) (Z.of_nat c) = Ok x.
Proof.
  intros Hi Hc. unfold cell_get.
  apply lookup_lt_Some in Hi as Hi'. apply lookup_lt_Some in Hc as Hc'.
  rewrite py_index_in by (unfold len; lia). rewrite bind_ok, Nat2Z.id, Hi. simpl.
  rewrite py_index_in by (unfold len; lia). by rewrite bind_ok, Nat2Z.id, Hc.
Qed.

Lemma cell_set_ok (a : buffer) (i c : nat) (row : frame) (v : R) :
  a !! i = Some row -> (c < length row)%nat ->
  cell_set a (Z.of_nat i) (Z.of_nat c) v = Ok (<[i := <[c := v]> row]> a).
Proof.
  intros Hi Hc. unfold cell_set.
  apply lookup_lt_Some in Hi as Hi'.
  rewrite py_index_in by (unfold len; lia). rewrite bind_ok, Nat2Z.id, Hi. simpl.
  rewrite py_index_in by (unfold len; lia). by rewrite bind_ok, Nat2Z.id.
Qed.

End lists.

(** ** Slices and array shapes *)

Section slices.
Local Open Scope Z_scope.
Context {A : Type}.
Implicit Types l : list A.

Lemma slice_from_nonneg l i : 0 <= i -> slice_from l i = drop (Z.to_nat i) l.
Proof.
  intros H. unfold slice_from, clip_bound.
  replace (i <? 0) with false by (symmetry; apply Z.ltb_ge; lia).
  destruct (Z.le_gt_cases i (len l)).
  - by rewrite Z.min_l.
  - rewrite Z.min_r by lia. unfold len in *. rewrite Nat2Z.id.
    by rewrite !drop_ge by lia.
Qed.

Lemma slice_to_nonneg l j : 0 <= j -> slice_to l j = take (Z.to_nat j) l.
Proof.
  intros H. unfold slice_to, clip_bound.
  replace (j <? 0) with false by (symmetry; apply Z.ltb_ge; lia).
  destruct (Z.le_gt_cases j (len l)).
  - by rewrite Z.min_l.
  - rewrite Z.min_r by lia. unfold len in *. rewrite Nat2Z.id.
    by rewrite !take_ge by lia.
Qed.

Lemma slice_inside l i j :
  0 <= i <= j -> j <= len l ->
  slice l i j = take (Z.to_nat (j - i)) (drop (Z.to_nat i) l).
Proof.
  intros H1 H2. unfold slice, clip_bound.
  replace (i <? 0) with false by (symmetry; apply Z.ltb_ge; lia).
  replace (j <? 0) with false by (symmetry; apply Z.ltb_ge; lia).
  rewrite !Z.min_l by lia. f_equal. lia.
Qed.

Lemma slice_from_len l i : 0 <= i <= len l -> len (slice_from l i) = len l - i.
Proof.
  intros H. rewrite slice_from_nonneg by lia. unfold len in *.
  rewrite length_drop. lia.
Qed.

Lemma slice_len l i j : 0 <= i <= j -> j <= len l -> len (slice l i j) = j - i.
Proof.
  intros H1 H2. rewrite slice_inside by lia. unfold len in *.
  rewrite length_take, length_drop. lia.
Qed.

End slices.

Section shapes.
Local Open Scope Z_scope.

Lemma scale_len k a : len (scale k a) = len a.
Proof. unfold len, scale. by rewrite length_fmap. Qed.

Lemma scale_shape channels k a : well_shaped channels a -> well_shaped channels (scale k a).
Proof.
  unfold well_shaped, scale. intros H. apply Forall_fmap.
  eapply Forall_impl; [done|]. intros row Hr. simpl. unfold len in *.
  by rewrite length_fmap.
Qed.

Lemma slice_from_shape channels (a : buffer) i :
  well_shaped channels a -> well_shaped channels (slice_from a i).
Proof. unfold well_shaped, slice_from. apply Forall_drop. Qed.

Lemma slice_to_shape channels (a : buffer) i :
  well_shaped channels a -> well_shaped channels (slice_to a i).
Proof. unfold well_shaped, slice_to. apply Forall_take. Qed.

Lemma slice_shape channels (a : buffer) i j :
  well_shaped channels a -> well_shaped channels (slice a i j).
Proof. unfold well_shaped, slice. intros H. by apply Forall_take, Forall_drop. Qed.

Lemma take_window_shape channels a w :
  well_shaped channels a -> well_shaped channels (take_window a w).
Proof.
  unfold take_window. destruct (w_stop w); [apply slice_shape|apply slice_from_shape].
Qed.

Lemma app_shape channels (a b : buffer) :
  well_shaped channels a -> well_shaped channels b -> well_shaped channels (a ++ b).
Proof. unfold well_shaped. apply Forall_app_2. Qed.

End shapes.

(** ** The gain correction *)

Section gain.
Local Open Scope R_scope.

Lemma ln_10_pos : 0 < ln 10.
Proof. rewrite <- ln_1. apply ln_increasing; lra. Qed.

Lemma linear_gain_pos d : 0 < linear_gain d.
Proof. unfold linear_gain, Rpower. apply exp_pos. Qed.

Lemma linear_gain_0 : linear_gain 0 = 1.
Proof. unfold linear_gain, Rpower. replace (0 / 20 * ln 10) with 0 by lra. apply exp_0. Qed.

Lemma linear_gain_increasing d e : d < e -> linear_gain d < linear_gain e.
Proof.
  intros H. unfold linear_gain, Rpower. apply exp_increasing.
  pose proof ln_10_pos. nra.
Qed.

Lemma linear_gain_gt_1 d : 0 < d -> 1 < linear_gain d.
Proof. intros H. rewrite <- linear_gain_0. by apply linear_gain_increasing. Qed.

Lemma linear_gain_lt_1 d : d < 0 -> linear_gain d < 1.
Proof. intros H. rewrite <- linear_gain_0. by apply linear_gain_increasing. Qed.

Lemma log10_1 : log10 1 = 0.
Proof. unfold log10. rewrite ln_1. lra. Qed.

Lemma log10_linear_gain d : 20 * log10 (linear_gain d) = d.
Proof.
  unfold log10, linear_gain, Rpower. rewrite ln_exp.
  pose proof ln_10_pos. field. lra.
Qed.

Lemma sample_scale k a i c : sample (scale k a) i c = Rmult k <$> sample a i c.
Proof.
  unfold sample, scale. rewrite list_lookup_fmap.
  destruct (a !! i) as [row|]; simpl; [|done].
  by rewrite list_lookup_fmap.
Qed.

Lemma limit_loudness_fin t g m :
  DynAdapt4.limit_loudness t (Num g) (Fin m) =
  if Rgt_dec (Rabs (t - m)) g
  then if Rgt_dec m t then Fin (t + g) else Fin (t - g)
  else Fin m.
Proof.
  unfold DynAdapt4.limit_loudness. simpl.
  destruct (Rgt_dec (Rabs (t - m)) g); [|done].
  by destruct (Rgt_dec m t).
Qed.

(** Whatever the meter reports, the limited loudness is finite. *)
Lemma limit_loudness_finite t g l : exists m, DynAdapt4.limit_loudness t (Num g) l = Fin m.
Proof.
  destruct l as [|m|]; [by eexists| |by eexists].
  rewrite limit_loudness_fin.
  destruct (Rgt_dec _ g); [destruct (Rgt_dec m t)|]; by eexists.
Qed.

Lemma limit_loudness_within t g l :
  within_max_gain t g l -> DynAdapt4.limit_loudness t (Num g) l = l.
Proof.
  destruct l as [|m|]; unfold within_max_gain; try done. intros H.
  rewrite limit_loudness_fin. destruct (Rgt_dec (Rabs (t - m)) g); [lra|done].
Qed.

(** The refined variant's correction never fails: it scales the block by
    the linear factor of a finite gain. *)
Lemma correct_scales t g l sub_audio :
  exists a, DynAdapt4.applied_gain t (Num g) l = Fin a /\
    DynAdapt4.correct t (Num g) l sub_audio = Ok (scale (linear_gain a) sub_audio).
Proof.
  unfold DynAdapt4.applied_gain, DynAdapt4.correct, normalize_loudness, delta_loudness.
  destruct (limit_loudness_finite t g l) as [m ->]. simpl. by eexists.
Qed.

Lemma applied_gain_fin t g m :
  DynAdapt4.applied_gain t (Num g) (Fin m) =
  Fin (if Rgt_dec (Rabs (t - m)) g then if Rgt_dec m t then - g else g else t - m).
Proof.
  unfold DynAdapt4.applied_gain, delta_loudness. rewrite limit_loudness_fin.
  destruct (Rgt_dec _ g); [destruct (Rgt_dec m t)|]; simpl; f_equal; lra.
Qed.

Lemma applied_gain_neg_inf t g : DynAdapt4.applied_gain t (Num g) NegInf = Fin g.
Proof. unfold DynAdapt4.applied_gain, delta_loudness. simpl. f_equal; lra. Qed.

Lemma applied_gain_pos_inf t g : DynAdapt4.applied_gain t (Num g) PosInf = Fin (- g).
Proof. unfold DynAdapt4.applied_gain, delta_loudness. simpl. f_equal; lra. Qed.

Lemma correct_silent t g sub_audio :
  DynAdapt4.correct t (Num g) NegInf sub_audio = Ok (scale (linear_gain g) sub_audio).
Proof.
  unfold DynAdapt4.correct, normalize_loudness, delta_loudness. simpl.
  by replace (t - (t - g)) with g by lra.
Qed.

Lemma correct_loud t g m sub_audio :
  0 <= g -> t + g < m ->
  DynAdapt4.correct t (Num g) (Fin m) sub_audio = Ok (scale (linear_gain (- g)) sub_audio).
Proof.
  intros Hg Hm. unfold DynAdapt4.correct. rewrite limit_loudness_fin.
  destruct (Rgt_dec (Rabs (t - m)) g) as [_|Hn].
  - destruct (Rgt_dec m t) as [_|Hn]; [|lra].
    unfold normalize_loudness, delta_loudness. simpl.
    by replace (t - (t + g)) with (- g) by lra.
  - exfalso. apply Hn. rewrite Rabs_left by lra. lra.
Qed.

(** C5: for a block of finite measured loudness [m], target [t] and
    maximum gain [g >= 0], the applied gain in dB is [t - m] when
    [|t - m| <= g], [+g] when [t - m > g] and [-g] when [t - m < -g], and
    every sample of the block is multiplied by the one linear factor
    [10^(applied_gain/20)]. *)
Theorem gain_clamp (t g m : R) (sub_audio : buffer) :
  0 <= g ->
  exists a corrected,
    DynAdapt4.applied_gain t (Num g) (Fin m) = Fin a /\
    DynAdapt4.correct t (Num g) (Fin m) sub_audio = Ok corrected /\
    (Rabs (t - m) <= g -> a = t - m) /\
    (t - m > g -> a = g) /\
    (t - m < - g -> a = - g) /\
    corrected = scale (Rpower 10 (a / 20)) sub_audio /\
    forall i c, sample corrected i c = Rmult (Rpower 10 (a / 20)) <$> sample sub_audio i c.
Proof.
  intros Hg.
  destruct (correct_scales t g (Fin m) sub_audio) as (a & Ha & Hc).
  exists a, (scale (linear_gain a) sub_audio).
  split; [done|]. split; [done|].
  rewrite applied_gain_fin in Ha. injection Ha as Ha.
  assert (Hcases : (Rabs (t - m) <= g -> a = t - m) /\ (t - m > g -> a = g) /\
                   (t - m < - g -> a = - g)).
  { subst a. destruct (Rgt_dec (Rabs (t - m)) g) as [Hc'|Hc'];
      [destruct (Rgt_dec m t)|]; revert Hc'; unfold Rabs;
      destruct (Rcase_abs (t - m)); intros; repeat split; intros; lra. }
  destruct Hcases as (? & ? & ?).
  repeat split; try done.
  intros i c. apply sample_scale.
Qed.

(** A block at -30 LUFS, target -16, at most 2 dB: the gain is +2 dB. *)
Lemma gain_clamp_witness :
  0 <= 2 /\
  exists a corrected,
    DynAdapt4.applied_gain (-16) (Num 2%R) (Fin (-30)) = Fin a /\
    DynAdapt4.correct (-16) (Num 2%R) (Fin (-30)) [[1; 1]] = Ok corrected /\
    a = 2.
Proof.
  split; [lra|].
  destruct (gain_clamp (-16) 2 (-30) [[1; 1]]) as (a & corrected & H1 & H2 & _ & H4 & _);
    [lra|].
  exists a, corrected. repeat split; [done|done|]. apply H4. lra.
Defined.

(** C8: for a fixed target and maximum gain, the applied gain never
    increases with the measured loudness (infinite readings included). *)
Theorem applied_gain_monotone (t g : R) (m1 m2 : xreal) :
  0 <= g -> xle m1 m2 ->
  xle (DynAdapt4.applied_gain t (Num g) m2) (DynAdapt4.applied_gain t (Num g) m1).
Proof.
  intros Hg Hle.
  destruct m1 as [|x|], m2 as [|y|]; simpl in Hle; try done;
    rewrite ?applied_gain_neg_inf, ?applied_gain_pos_inf, ?applied_gain_fin; simpl;
    repeat match goal with
    | |- context [Rgt_dec ?a ?b] => destruct (Rgt_dec a b)
    end;
    repeat match goal with
    | H : context [Rabs ?a] |- _ => revert H; unfold Rabs; destruct (Rcase_abs a); intros
    end; lra.
Qed.

Lemma applied_gain_monotone_witness :
  0 <= 2 /\ xle (Fin (-30)) (Fin (-10)) /\
  xle (DynAdapt4.applied_gain (-16) (Num 2%R) (Fin (-10)))
      (DynAdapt4.applied_gain (-16) (Num 2%R) (Fin (-30))).
Proof.
  split; [lra|]. split; [simpl; lra|].
  apply (applied_gain_monotone (-16) 2 (Fin (-30)) (Fin (-10))); simpl; lra.
Defined.

(** C6, as the code has it: a silent block (measured loudness [-inf]) is
    not left alone.  The refined variant takes the infinite gap for one
    beyond the clamp and applies [+max_gain] dB, every sample times
    [10^(max_gain/20)]; the simple variant has no clamp, and its
    normaliser turns the block non-finite. *)
Theorem silent_block_gain (t g : R) (sub_audio : buffer) :
  DynAdapt4.applied_gain t (Num g) NegInf = Fin g /\
  DynAdapt4.correct t (Num g) NegInf sub_audio = Ok (scale (Rpower 10 (g / 20)) sub_audio) /\
  (forall i c, sample (scale (Rpower 10 (g / 20)) sub_audio) i c
               = Rmult (Rpower 10 (g / 20)) <$> sample sub_audio i c) /\
  normalize_loudness sub_audio NegInf t = Stop NonFinite.
Proof.
  repeat split.
  - apply applied_gain_neg_inf.
  - apply correct_silent.
  - intros i c. apply sample_scale.
Qed.

(** C6 fails as stated: a block of samples at -100 dBFS that the meter
    gates to [-inf] comes out 2 dB louder. *)
Lemma silent_block_amplified :
  DynAdapt4.correct (-16) (Num 2%R) NegInf [[1 / 100000; 1 / 100000]]
  <> Ok [[1 / 100000; 1 / 100000]].
Proof.
  rewrite correct_silent. simpl. intros H. injection H as H _.
  pose proof (linear_gain_gt_1 2). lra.
Qed.

End gain.

(** ** The crossfade *)

Section crossfade.
Local Open Scope Z_scope.

Variables (blocksize fadesize : Z) (sub_audio : buffer).

Lemma crossfade_cells (a : buffer) (j k : nat) (prev_row sub_row : frame) (c : nat) :
  Z.of_nat j + blocksize - fadesize = Z.of_nat k ->
  a !! k = Some prev_row -> sub_audio !! j = Some sub_row ->
  length prev_row = length sub_row -> (c <= length prev_row)%nat ->
  for_each (range (Z.of_nat c)) (crossfade_cell blocksize fadesize sub_audio (Z.of_nat j)) a
  = Ok (<[k := take c (blend_row fadesize (Z.of_nat j) prev_row sub_row) ++ drop c prev_row]> a).
Proof.
  intros Hk Ha Hs Hlen. induction c as [|c IH]; intros Hc.
  - simpl. rewrite drop_0. by rewrite list_insert_id.
  - replace (Z.of_nat (S c)) with (Z.of_nat c + 1) by lia.
    rewrite range_succ, for_each_app, IH by lia. rewrite bind_ok, for_each_singleton.
    destruct (lookup_lt_is_Some_2 prev_row c) as [p Hp]; [lia|].
    destruct (lookup_lt_is_Some_2 sub_row c) as [s Hs']; [lia|].
    set (zw := blend_row fadesize (Z.of_nat j) prev_row sub_row).
    assert (Hzl : length zw = length prev_row).
    { unfold zw, blend_row. rewrite length_zip_with. lia. }
    set (rc := take c zw ++ drop c prev_row).
    assert (Hrc : rc !! c = Some p).
    { unfold rc. rewrite lookup_app_r; rewrite length_take; [|lia].
      replace (c - c `min` length zw)%nat with 0%nat by lia.
      by rewrite lookup_drop, Nat.add_0_r. }
    assert (Hak : (k < length a)%nat) by by eapply lookup_lt_Some.
    unfold crossfade_cell. rewrite Hk.
    rewrite (cell_get_ok (<[k:=rc]> a) k c rc p), bind_ok;
      [| by apply list_lookup_insert_eq | done].
    rewrite (cell_get_ok sub_audio j c sub_row s), bind_ok by done.
    rewrite (cell_set_ok (<[k:=rc]> a) k c rc); [| by apply list_lookup_insert_eq |].
    2:{ unfold rc. rewrite length_app, length_take, length_drop. lia. }
    rewrite list_insert_insert_eq. do 2 f_equal.
    unfold rc. rewrite insert_app_r_alt; rewrite length_take; [|lia].
    replace (c - c `min` length zw)%nat with 0%nat by lia.
    assert (Hz : zw !! c = Some ((1 - IZR (Z.of_nat j) * (1 / IZR fadesize)) * p
                                 + IZR (Z.of_nat j) * (1 / IZR fadesize) * s)%R).
    { unfold zw, blend_row. rewrite lookup_zip_with, Hp. simpl. by rewrite Hs'. }
    rewrite (take_S_r _ _ _ Hz), (drop_S _ _ _ Hp). simpl.
    by rewrite <- app_assoc.
Qed.

Lemma crossfade_row_ok (channels : Z) (a : buffer) (j k : nat) (prev_row sub_row : frame) :
  Z.of_nat j + blocksize - fadesize = Z.of_nat k ->
  a !! k = Some prev_row -> sub_audio !! j = Some sub_row ->
  len prev_row = channels -> len sub_row = channels ->
  crossfade_row channels blocksize fadesize sub_audio (Z.of_nat j) a
  = Ok (<[k := blend_row fadesize (Z.of_nat j) prev_row sub_row]> a).
Proof.
  intros Hk Ha Hs Hp Hsl. unfold crossfade_row. rewrite <- Hp. unfold len in *.
  rewrite (crossfade_cells a j k prev_row sub_row) by (done || lia).
  do 2 f_equal. rewrite drop_all, app_nil_r. apply take_ge.
  unfold blend_row. rewrite length_zip_with. lia.
Qed.

End crossfade.

Section blended.
Local Open Scope Z_scope.

Variables (channels blocksize fadesize : Z) (sub_audio prev_audio : buffer).
Hypothesis Hfade : 0 <= fadesize <= blocksize.
Hypothesis Hprev : blocksize <= len prev_audio.
Hypothesis Hsub : fadesize <= len sub_audio.
Hypothesis Hprev_shape : well_shaped channels prev_audio.
Hypothesis Hsub_shape : well_shaped channels sub_audio.

Lemma blended_length j : length (blended blocksize fadesize sub_audio prev_audio j) = length prev_audio.
Proof. induction j as [|j IH]; simpl; [done|]. by rewrite length_insert. Qed.

Lemma blended_lookup_other j (k : nat) :
  (forall i, (i < j)%nat -> k <> Z.to_nat (Z.of_nat i + blocksize - fadesize)) ->
  blended blocksize fadesize sub_audio prev_audio j !! k = prev_audio !! k.
Proof using Type.
  induction j as [|j IH]; intros H; simpl; [done|].
  rewrite list_lookup_insert_ne by (intros E; apply (H j); [lia|done]).
  apply IH. intros i Hi. apply H. lia.
Qed.

Lemma blended_lookup_fade j (i : nat) :
  (i < j)%nat -> (Z.of_nat j <= fadesize) ->
  blended blocksize fadesize sub_audio prev_audio j !! Z.to_nat (Z.of_nat i + blocksize - fadesize)
  = Some (blend_row fadesize (Z.of_nat i)
            (default [] (prev_audio !! Z.to_nat (Z.of_nat i + blocksize - fadesize)))
            (default [] (sub_audio !! i))).
Proof using Hfade Hprev.
  induction j as [|j IH]; intros Hi Hj; [lia|]. simpl.
  destruct (decide (i = j)) as [->|Hne].
  - apply list_lookup_insert_eq. rewrite blended_length. unfold len in *. lia.
  - rewrite list_lookup_insert_ne by lia. apply IH; lia.
Qed.

Lemma blended_shape j :
  Z.of_nat j <= fadesize ->
  well_shaped channels (blended blocksize fadesize sub_audio prev_audio j).
Proof using Hfade Hprev Hsub Hprev_shape Hsub_shape.
  induction j as [|j IH]; intros Hj; simpl; [done|].
  apply Forall_insert; [apply IH; lia|].
  destruct (lookup_lt_is_Some_2 prev_audio (Z.to_nat (Z.of_nat j + blocksize - fadesize)))
    as [prow Hp]; [unfold len in *; lia|].
  destruct (lookup_lt_is_Some_2 sub_audio j) as [srow Hs]; [unfold len in *; lia|].
  rewrite Hp, Hs. simpl.
  pose proof (Forall_lookup_1 _ _ _ _ Hprev_shape Hp) as H1.
  pose proof (Forall_lookup_1 _ _ _ _ Hsub_shape Hs) as H2.
  simpl in H1, H2. unfold blend_row, len in *. rewrite length_zip_with. lia.
Qed.

Lemma crossfade_rounds j :
  Z.of_nat j <= fadesize ->
  for_each (range (Z.of_nat j)) (crossfade_row channels blocksize fadesize sub_audio) prev_audio
  = Ok (blended blocksize fadesize sub_audio prev_audio j).
Proof using Hfade Hprev Hsub Hprev_shape Hsub_shape.
  induction j as [|j IH]; intros Hj; [done|].
  replace (Z.of_nat (S j)) with (Z.of_nat j + 1) by lia.
  rewrite range_succ, for_each_app, IH by lia. rewrite bind_ok, for_each_singleton. simpl.
  set (k := Z.to_nat (Z.of_nat j + blocksize - fadesize)).
  destruct (lookup_lt_is_Some_2 prev_audio k) as [prow Hp]; [unfold len in *; lia|].
  destruct (lookup_lt_is_Some_2 sub_audio j) as [srow Hs]; [unfold len in *; lia|].
  rewrite Hp, Hs. simpl.
  apply crossfade_row_ok; [lia| |done| |].
  - rewrite blended_lookup_other; [done|]. intros i Hi. lia.
  - apply (Forall_lookup_1 _ _ _ _ Hprev_shape Hp).
  - apply (Forall_lookup_1 _ _ _ _ Hsub_shape Hs).
Qed.

Lemma crossfade_into_ok :
  crossfade_into channels blocksize fadesize sub_audio prev_audio
  = Ok (blended blocksize fadesize sub_audio prev_audio (Z.to_nat fadesize)).
Proof using Hfade Hprev Hsub Hprev_shape Hsub_shape.
  unfold crossfade_into. rewrite <- (Z2Nat.id fadesize) at 1 by lia.
  apply crossfade_rounds. lia.
Qed.

End blended.

Section blend.

Lemma blend_weight_bounds (j fadesize : Z) :
  (0 <= j < fadesize)%Z -> (0 <= IZR j / IZR fadesize < 1)%R.
Proof.
  intros H.
  assert (0 < IZR fadesize)%R by (apply IZR_lt; lia).
  assert (0 <= IZR j)%R by (apply IZR_le; lia).
  assert (IZR j < IZR fadesize)%R by (apply IZR_lt; lia).
  split.
  - apply Rmult_le_pos; [done|]. left. by apply Rinv_0_lt_compat.
  - apply Rmult_lt_reg_r with (IZR fadesize); [done|].
    unfold Rdiv. rewrite Rmult_assoc, Rinv_l by lra. lra.
Qed.

Lemma blend_weight_increasing (j j' fadesize : Z) :
  (0 <= j < j')%Z -> (j' < fadesize)%Z -> (IZR j / IZR fadesize < IZR j' / IZR fadesize)%R.
Proof.
  intros H H'.
  assert (0 < IZR fadesize)%R by (apply IZR_lt; lia).
  assert (IZR j < IZR j')%R by (apply IZR_lt; lia).
  unfold Rdiv. apply Rmult_lt_compat_r; [|done]. by apply Rinv_0_lt_compat.
Qed.

Lemma blend_no_overshoot (w p s : R) :
  (0 <= w <= 1)%R ->
  (Rmin p s <= (1 - w) * p + w * s <= Rmax p s)%R.
Proof.
  intros H. unfold Rmin, Rmax. destruct (Rle_dec p s); split; nra.
Qed.

Lemma sample_blend_row (a : buffer) (k c : nat) fadesize j (prow srow : frame) (p s : R) :
  a !! k = Some (blend_row fadesize j prow srow) ->
  prow !! c = Some p -> srow !! c = Some s ->
  sample a k c = Some ((1 - IZR j / IZR fadesize) * p + IZR j / IZR fadesize * s)%R.
Proof.
  intros Ha Hp Hs. unfold sample. rewrite Ha. simpl.
  unfold blend_row. rewrite lookup_zip_with, Hp. simpl. rewrite Hs. simpl.
  f_equal. unfold Rdiv. ring.
Qed.

(** C7: for a block that is not the first, the crossfade succeeds and
    writes, at every offset [j] in [0, fadesize) and in every channel,
    [(1 - j/fadesize) * prev_tail[j] + (j/fadesize) * curr_head[j]] into
    the tail of the held block (rows [blocksize - fadesize .. blocksize)),
    leaving its other rows alone; the blended sample lies between the two
    samples it blends; the weight [j/fadesize] grows strictly with [j].
    The step of either script for a block [idx > 0] is this crossfade of
    the corrected block into the held block: the blended block is what it
    appends to the output, and it holds the corrected block without its
    first [fadesize] rows.  The step for block 0, in either script, holds
    the corrected block without any blend. *)
Theorem crossfade_linear_blend (channels blocksize fadesize : Z) (sub_audio prev_audio : buffer) :
  (0 <= fadesize <= blocksize)%Z ->
  (blocksize <= len prev_audio)%Z ->
  (fadesize <= len sub_audio)%Z ->
  well_shaped channels prev_audio ->
  well_shaped channels sub_audio ->
  exists blended_audio,
    crossfade_into channels blocksize fadesize sub_audio prev_audio = Ok blended_audio /\
    length blended_audio = length prev_audio /\
    (forall (j : Z) (ch : nat) (p s : R),
       (0 <= j < fadesize)%Z ->
       sample prev_audio (Z.to_nat (j + blocksize - fadesize)) ch = Some p ->
       sample sub_audio (Z.to_nat j) ch = Some s ->
       let w := (IZR j / IZR fadesize)%R in
       sample blended_audio (Z.to_nat (j + blocksize - fadesize)) ch
         = Some ((1 - w) * p + w * s)%R /\
       (Rmin p s <= (1 - w) * p + w * s <= Rmax p s)%R) /\
    (forall k : nat,
       (Z.of_nat k < blocksize - fadesize \/ blocksize <= Z.of_nat k)%Z ->
       blended_audio !! k = prev_audio !! k) /\
    (forall j j' : Z,
       (0 <= j < j')%Z -> (j' < fadesize)%Z ->
       (IZR j / IZR fadesize < IZR j' / IZR fadesize)%R) /\
    (forall meter final_loudness (max_gain : pyfloat R) audio block_count idx new_audio,
       (0 < idx)%Z ->
       let current := take_window audio (block_window blocksize fadesize block_count idx) in
       (DynAdapt4.correct final_loudness max_gain (meter current) current = Ok sub_audio ->
        DynAdapt4.block_step meter final_loudness max_gain channels blocksize fadesize
          audio block_count idx (new_audio, prev_audio)
        = Ok (new_audio ++ blended_audio, slice_from sub_audio fadesize)) /\
       (normalize_loudness current (meter current) final_loudness = Ok sub_audio ->
        DynAdapt2.block_step meter final_loudness channels blocksize fadesize
          audio block_count idx (new_audio, prev_audio)
        = Ok (new_audio ++ blended_audio, slice_from sub_audio fadesize))) /\
    (forall meter final_loudness (max_gain : pyfloat R) audio block_count new_audio held,
       DynAdapt4.block_step meter final_loudness max_gain channels blocksize fadesize
         audio block_count 0 (new_audio, held)
       = (let first := take_window audio (block_window blocksize fadesize block_count 0) in
          corrected ← DynAdapt4.correct final_loudness max_gain (meter first) first;
          Ok (new_audio, corrected)) /\
       DynAdapt2.block_step meter final_loudness channels blocksize fadesize
         audio block_count 0 (new_audio, held)
       = (let first := take_window audio (block_window blocksize fadesize block_count 0) in
          corrected ← normalize_loudness first (meter first) final_loudness;
          Ok (new_audio, corrected))).
Proof.
  intros Hfade Hprev Hsub Hps Hss.
  exists (blended blocksize fadesize sub_audio prev_audio (Z.to_nat fadesize)).
  assert (Hcross : crossfade_into channels blocksize fadesize sub_audio prev_audio
                   = Ok (blended blocksize fadesize sub_audio prev_audio (Z.to_nat fadesize)))
    by by apply crossfade_into_ok.
  split; [done|].
  split; [apply blended_length|].
  split; [|split; [|split; [|split]]].
  - intros j ch p s Hj Hp Hs w.
    split; [|apply blend_no_overshoot; pose proof (blend_weight_bounds j fadesize Hj); unfold w; lra].
    unfold sample in Hp, Hs.
    destruct (prev_audio !! Z.to_nat (j + blocksize - fadesize)) as [prow|] eqn:Ep; [|done].
    destruct (sub_audio !! Z.to_nat j) as [srow|] eqn:Es; [|done].
    simpl in Hp, Hs.
    apply (sample_blend_row _ _ _ _ j prow srow); [|done|done].
    pose proof (blended_lookup_fade blocksize fadesize sub_audio prev_audio Hfade Hprev
                  (Z.to_nat fadesize) (Z.to_nat j)) as Hb.
    rewrite !Z2Nat.id in Hb by lia. rewrite Ep, Es in Hb. apply Hb; lia.
  - intros k Hk. apply blended_lookup_other. intros i Hi. lia.
  - intros j j'. apply blend_weight_increasing.
  - intros meter final_loudness max_gain audio block_count idx new_audio Hidx current.
    assert (Hlt : (0 <? idx)%Z = true) by (apply Z.ltb_lt; lia).
    split; intros Hc.
    + unfold DynAdapt4.block_step. fold current. cbv zeta.
      by rewrite Hc, bind_ok, Hlt, Hcross, bind_ok.
    + unfold DynAdapt2.block_step. fold current. cbv zeta.
      by rewrite Hc, bind_ok, Hlt, Hcross, bind_ok.
  - intros. split; reflexivity.
Qed.

(** Block 1 of six stereo frames in blocks of three with a fade of two,
    read at the target loudness (gain 0 dB), against a held block of
    samples 10, 20, 30: the fade leaves row 0 alone, writes
    [1 * 20 + 0 * 2] into row 1 and [1/2 * 30 + 1/2 * 3] into row 2, and
    the step appends the blended block. *)
Lemma crossfade_linear_blend_witness :
  let audio := [[1; 1]; [2; 2]; [3; 3]; [4; 4]; [5; 5]; [6; 6]]%R in
  let prev_audio := [[10; 10]; [20; 20]; [30; 30]]%R in
  let meter := fun _ : buffer => Fin (-16) in
  let sub_audio := scale (linear_gain (-16 - -16)) (slice_from audio 1) in
  exists blended_audio,
    crossfade_into 2 3 2 sub_audio prev_audio = Ok blended_audio /\
    sample blended_audio 0 0 = Some 10%R /\
    sample blended_audio 1 0 = Some 20%R /\
    sample blended_audio 2 0 = Some (33 / 2)%R /\
    DynAdapt4.block_step meter (-16) (Num 2%R) 2 3 2 audio 2 1 ([], prev_audio)
      = Ok ([] ++ blended_audio, slice_from sub_audio 2) /\
    DynAdapt2.block_step meter (-16) 2 3 2 audio 2 1 ([], prev_audio)
      = Ok ([] ++ blended_audio, slice_from sub_audio 2).
Proof.
  intros audio prev_audio meter sub_audio.
  assert (Hk : linear_gain (-16 - -16) = 1%R).
  { replace (-16 - -16)%R with 0%R by lra. apply linear_gain_0. }
  destruct (crossfade_linear_blend 2 3 2 sub_audio prev_audio)
    as (b & H1 & _ & Hblend & Hother & _ & Hstep & _).
  - lia.
  - vm_compute. discriminate.
  - vm_compute. discriminate.
  - repeat constructor.
  - repeat constructor.
  - exists b. split; [exact H1|].
    split; [|split; [|split; [|split]]].
    + unfold sample. rewrite (Hother 0%nat) by (left; lia). reflexivity.
    + destruct (Hblend 0%Z 0%nat 20%R (linear_gain (-16 - -16) * 2)%R) as [Hs _];
        [lia|reflexivity|reflexivity|].
      change (Z.to_nat (0 + 3 - 2)) with 1%nat in Hs. rewrite Hs. f_equal. lra.
    + destruct (Hblend 1%Z 0%nat 30%R (linear_gain (-16 - -16) * 3)%R) as [Hs _];
        [lia|reflexivity|reflexivity|].
      change (Z.to_nat (1 + 3 - 2)) with 2%nat in Hs. rewrite Hs, Hk. f_equal. lra.
    + apply (Hstep meter (-16)%R (Num 2%R) audio 2%Z 1%Z []); [lia|].
      unfold DynAdapt4.correct, normalize_loudness, delta_loudness.
      rewrite limit_loudness_within; [reflexivity|].
      simpl. rewrite Rabs_right; lra.
    + apply (Hstep meter (-16)%R (Num 2%R) audio 2%Z 1%Z []); [lia|].
      reflexivity.
Defined.

End blend.

(** ** The block loop of a phase *)

Section windows.
Local Open Scope Z_scope.

Lemma block_window_first blocksize fadesize block_count :
  0 <= fadesize ->
  block_window blocksize fadesize block_count 0
  = Window 0 (if 0 =? block_count - 1 then None else Some blocksize).
Proof.
  intros H. unfold block_window.
  replace (0 * blocksize - fadesize + blocksize + fadesize) with blocksize by lia.
  replace (0 * blocksize - fadesize) with (- fadesize) by lia.
  destruct (Z.ltb_spec (- fadesize) 0); destruct (0 =? block_count - 1); try done;
    replace (- fadesize) with 0 by lia; done.
Qed.

Lemma block_window_later blocksize fadesize block_count idx :
  0 <= idx * blocksize - fadesize ->
  block_window blocksize fadesize block_count idx
  = Window (idx * blocksize - fadesize)
      (if idx =? block_count - 1 then None else Some ((idx + 1) * blocksize)).
Proof.
  intros H. unfold block_window.
  replace (idx * blocksize - fadesize <? 0) with false by (symmetry; apply Z.ltb_ge; lia).
  replace (idx * blocksize - fadesize + blocksize + fadesize) with ((idx + 1) * blocksize) by lia.
  by destruct (idx =? block_count - 1).
Qed.

End windows.

Section phase.
Local Open Scope Z_scope.

Variable meter : buffer -> xreal.
Variables (final_loudness max_gain : R).
Variables (channels blocksize fadesize : Z).
Variable audio : buffer.

Hypothesis Hblock : 0 < blocksize.
Hypothesis Hfade : 0 <= fadesize < blocksize.
Hypothesis Hlong : blocksize <= len audio.
Hypothesis Hshape : well_shaped channels audio.

Local Abbreviation block_count := (Z.quot (len audio) blocksize).
Local Abbreviation step :=
  (DynAdapt4.block_step meter final_loudness (Num max_gain) channels blocksize fadesize audio block_count).

Lemma block_count_bounds : 1 <= block_count /\ block_count * blocksize <= len audio.
Proof using Hblock Hlong.
  pose proof (len_nonneg audio).
  rewrite Z.quot_div_nonneg by lia. split.
  - apply Z.div_le_lower_bound; lia.
  - rewrite Z.mul_comm. apply Z.mul_div_le. lia.
Qed.

Lemma block_step_first new_audio prev_audio :
  exists held,
    step 0 (new_audio, prev_audio) = Ok (new_audio, held) /\
    well_shaped channels held /\ len held = held_len (len audio) blocksize 0.
Proof using Hblock Hfade Hlong Hshape.
  destruct block_count_bounds as [Hc1 Hc2].
  unfold DynAdapt4.block_step. rewrite block_window_first by lia.
  set (w := take_window audio _).
  destruct (correct_scales final_loudness max_gain (meter w) w) as (a & _ & ->).
  rewrite bind_ok. simpl. eexists. split; [done|]. split.
  - apply scale_shape, take_window_shape, Hshape.
  - rewrite scale_len. unfold w, take_window, held_len.
    destruct (0 =? block_count - 1) eqn:E; simpl.
    + rewrite slice_from_len; lia.
    + rewrite slice_len; nia.
Qed.

Lemma block_step_later idx new_audio prev_audio :
  1 <= idx < block_count ->
  well_shaped channels prev_audio -> len prev_audio = blocksize ->
  exists prev' held,
    step idx (new_audio, prev_audio) = Ok (new_audio ++ prev', held) /\
    well_shaped channels prev' /\ len prev' = blocksize /\
    well_shaped channels held /\ len held = held_len (len audio) blocksize idx.
Proof using Hblock Hfade Hlong Hshape.
  intros Hidx Hps Hpl.
  destruct block_count_bounds as [Hc1 Hc2].
  unfold DynAdapt4.block_step. rewrite block_window_later by nia.
  set (w := take_window audio _).
  assert (Hwl : len w = held_len (len audio) blocksize idx + fadesize).
  { unfold w, take_window, held_len. destruct (idx =? block_count - 1) eqn:E; simpl.
    - rewrite slice_from_len; nia.
    - rewrite slice_len; nia. }
  assert (Hheld : 0 < held_len (len audio) blocksize idx).
  { unfold held_len. destruct (Z.eqb_spec idx (block_count - 1)); nia. }
  destruct (correct_scales final_loudness max_gain (meter w) w) as (a & _ & ->).
  rewrite bind_ok.
  replace (0 <? idx) with true by (symmetry; apply Z.ltb_lt; lia).
  assert (Hws : well_shaped channels (scale (linear_gain a) w)).
  { apply scale_shape, take_window_shape, Hshape. }
  rewrite (crossfade_into_ok channels blocksize fadesize);
    [|lia|lia|rewrite scale_len; lia|done|done].
  rewrite bind_ok. do 2 eexists. split; [done|]. split; [|split; [|split]].
  - apply blended_shape; try done; try lia. rewrite scale_len; lia.
  - unfold len. rewrite blended_length. apply Hpl.
  - by apply slice_from_shape.
  - rewrite slice_from_len; rewrite scale_len; lia.
Qed.

Lemma block_loop (k : nat) new_audio prev_audio :
  1 <= Z.of_nat k <= block_count ->
  exists out held,
    for_each (range (Z.of_nat k)) step (new_audio, prev_audio) = Ok (new_audio ++ out, held) /\
    well_shaped channels out /\ len out = (Z.of_nat k - 1) * blocksize /\
    well_shaped channels held /\ len held = held_len (len audio) blocksize (Z.of_nat k - 1).
Proof using Hblock Hfade Hlong Hshape.
  induction k as [|k IH]; intros Hk; [lia|].
  replace (Z.of_nat (S k)) with (Z.of_nat k + 1) by lia.
  rewrite range_succ, for_each_app by lia.
  destruct (decide (k = 0%nat)) as [->|Hne].
  - change (Z.of_nat 0) with 0. rewrite (range_nonpos 0) by lia.
    change (for_each [] step (new_audio, prev_audio)) with (Ok (new_audio, prev_audio)).
    rewrite bind_ok, for_each_singleton.
    destruct (block_step_first new_audio prev_audio) as (held & -> & Hs & Hl).
    exists [], held. rewrite app_nil_r. repeat split; try done. apply Forall_nil_2.
  - destruct IH as (out & held & -> & Hos & Hol & Hhs & Hhl); [lia|].
    rewrite bind_ok, for_each_singleton.
    assert (Hhl' : len held = blocksize).
    { rewrite Hhl. unfold held_len.
      destruct (Z.eqb_spec (Z.of_nat k - 1) (block_count - 1)); lia. }
    destruct (block_step_later (Z.of_nat k) (new_audio ++ out) held)
      as (prev' & held' & -> & Hps & Hpl & Hhs' & Hhl''); [lia|done|done|].
    exists (out ++ prev'), held'. rewrite app_assoc.
    replace (Z.of_nat k + 1 - 1) with (Z.of_nat k) by lia.
    repeat split; try done.
    + by apply app_shape.
    + rewrite len_app. lia.
Qed.

Lemma phase_long new_audio prev_audio :
  exists out held,
    DynAdapt4.phase meter final_loudness (Num max_gain) channels blocksize fadesize audio
      (new_audio, prev_audio) = Ok (new_audio ++ out, held) /\
    well_shaped channels out /\ len out = len audio.
Proof using Hblock Hfade Hlong Hshape.
  destruct block_count_bounds as [Hc1 Hc2].
  unfold DynAdapt4.phase, int_div.
  replace (blocksize =? 0) with false by (symmetry; apply Z.eqb_neq; lia).
  rewrite bind_ok.
  destruct (block_loop (Z.to_nat block_count) new_audio prev_audio)
    as (out & held & Hloop & Hos & Hol & Hhs & Hhl); [lia|].
  rewrite Z2Nat.id in Hloop, Hol, Hhl by lia.
  rewrite Hloop, bind_ok. simpl.
  exists (out ++ held), held. rewrite app_assoc. repeat split; try done.
  - by apply app_shape.
  - rewrite len_app, Hol, Hhl. unfold held_len. rewrite Z.eqb_refl. lia.
Qed.

Lemma phase_fresh_state new_audio prev_audio prev_audio' :
  DynAdapt4.phase meter final_loudness (Num max_gain) channels blocksize fadesize audio
    (new_audio, prev_audio)
  = DynAdapt4.phase meter final_loudness (Num max_gain) channels blocksize fadesize audio
      (new_audio, prev_audio').
Proof using Hblock Hlong.
  destruct block_count_bounds as [Hc1 Hc2].
  unfold DynAdapt4.phase. destruct (int_div (len audio) blocksize) as [c|] eqn:E; [|done].
  unfold int_div in E.
  destruct (blocksize =? 0); [done|]. injection E as <-.
  rewrite !bind_ok.
  destruct (range_head block_count) as (rest & ->); [lia|].
  done.
Qed.

End phase.


(** ** The values a run of the refined variant uses *)

Section config.
Local Open Scope Z_scope.

Lemma int_of_Q_ratio (blocksize : Z) (x : Q) :
  0 < blocksize -> (0 < x)%Q -> (x < 1)%Q ->
  0 <= int_of_Q (inject_Z blocksize * x) < blocksize.
Proof.
  intros HB H0 H1. destruct x as [n d]. unfold Qlt in *. simpl in *.
  unfold int_of_Q. simpl.
  rewrite Z.quot_div_nonneg by nia. split.
  - apply Z.div_pos; nia.
  - apply Z.div_lt_upper_bound; nia.
Qed.

(** The crossfade ratio of a run: [nan] when [-x nan] was given, and
    otherwise a number strictly between 0 and 1. *)
Lemma xfade_cases (a : DynAdapt4.args) :
  match DynAdapt4.crossfade a with
  | NaN => DynAdapt4.xfade a = NaN
  | _ => exists x, DynAdapt4.xfade a = Num x /\ (0 < x)%Q /\ (x < 1)%Q
  end.
Proof.
  unfold DynAdapt4.xfade.
  destruct (DynAdapt4.crossfade a) as [x|[|]|]; simpl; try done.
  - destruct (Qle_bool x 0) eqn:E0; simpl; [by eexists|].
    destruct (Qle_bool 1 x) eqn:E1; simpl; [by eexists|].
    exists x. split; [done|].
    split; apply Qnot_le_lt; intros H; apply Qle_bool_iff in H; congruence.
  - by eexists.
  - by eexists.
Qed.

Lemma fadesize_bounds (a : DynAdapt4.args) (samplerate : Z) :
  DynAdapt4.crossfade a <> NaN ->
  0 < DynAdapt4.blocksize a samplerate ->
  exists fadesize,
    DynAdapt4.fadesize a samplerate = Ok fadesize /\
    0 <= fadesize < DynAdapt4.blocksize a samplerate.
Proof.
  intros Hx HB. pose proof (xfade_cases a) as H. unfold DynAdapt4.fadesize.
  destruct (DynAdapt4.crossfade a) as [x|[|]|]; [| | |done];
    destruct H as (r & -> & H0 & H1); simpl; eexists; (split; [done|]);
    by apply int_of_Q_ratio.
Qed.

Lemma fadesize_nan (a : DynAdapt4.args) (samplerate : Z) :
  DynAdapt4.crossfade a = NaN -> DynAdapt4.fadesize a samplerate = Stop ValueError.
Proof.
  intros Hx. pose proof (xfade_cases a) as H. rewrite Hx in H.
  unfold DynAdapt4.fadesize. by rewrite H.
Qed.

End config.

(** ** The two phases *)

Section dual_phase.
Local Open Scope Z_scope.

(** A phase pass on a buffer of at least one block keeps every sample. *)
Lemma run_phase_long meter t g channels blocksize fadesize (audio : buffer) :
  0 < blocksize -> 0 <= fadesize < blocksize -> blocksize <= len audio ->
  well_shaped channels audio ->
  exists out held,
    DynAdapt4.phase meter t (Num g) channels blocksize fadesize audio ([], []) = Ok (out, held) /\
    DynAdapt4.run_phase meter t (Num g) channels blocksize fadesize audio = Ok out /\
    well_shaped channels out /\ len out = len audio.
Proof.
  intros HB HF HN Hs.
  destruct (phase_long meter t g channels blocksize fadesize audio HB HF HN Hs [] [])
    as (out & held & Hp & Hos & Hol).
  exists out, held. unfold DynAdapt4.run_phase. rewrite Hp. done.
Qed.

(** C1, as the code has it: with phase 2 enabled and a buffer of at least
    one and a half blocks, the second pass is a phase pass on phase 1's
    OUTPUT without its first [blocksize/2] samples (not on the input
    buffer), and the stitched result is phase 1's output cut to its first
    [blocksize/2] samples followed by the whole of phase 2's output.
    Phase 1's result beyond the first half block is thus the input of
    phase 2. *)
Theorem dual_phase_composition (meter : buffer -> xreal) (final_loudness max_gain : R)
  (channels blocksize fadesize : Z) (audio : buffer) :
  0 < blocksize -> 0 <= fadesize < blocksize ->
  well_shaped channels audio ->
  blocksize + Z.quot blocksize 2 <= len audio ->
  let run := DynAdapt4.run_phase meter final_loudness (Num max_gain) channels blocksize fadesize in
  exists phase1 phase2,
    run audio = Ok phase1 /\
    run (slice_from phase1 (Z.quot blocksize 2)) = Ok phase2 /\
    DynAdapt4.stitch meter final_loudness (Num max_gain) channels blocksize fadesize false audio
      = Ok (slice_to phase1 (Z.quot blocksize 2) ++ phase2) /\
    len phase1 = len audio /\
    len phase2 = len audio - Z.quot blocksize 2.
Proof.
  intros HB HF Hs HN run.
  assert (Hh : 0 <= Z.quot blocksize 2) by (apply Z.quot_pos; lia).
  destruct (run_phase_long meter final_loudness max_gain channels blocksize fadesize audio)
    as (phase1 & held & Hp1 & Hr1 & Hs1 & Hl1); [done|done|lia|done|].
  set (shift_audio := slice_from phase1 (Z.quot blocksize 2)).
  assert (Hsl : len shift_audio = len audio - Z.quot blocksize 2).
  { unfold shift_audio. rewrite slice_from_len; lia. }
  destruct (run_phase_long meter final_loudness max_gain channels blocksize fadesize shift_audio)
    as (phase2 & held2 & Hp2 & Hr2 & Hs2 & Hl2); [done|done|lia|by apply slice_from_shape|].
  exists phase1, phase2. repeat split; try done; [|lia].
  unfold DynAdapt4.stitch. rewrite Hp1, bind_ok. fold shift_audio.
  rewrite (phase_fresh_state meter final_loudness max_gain channels blocksize fadesize
             shift_audio HB ltac:(lia) [] held []), Hp2.
  done.
Qed.

End dual_phase.

(** ** Runs with the peak meter *)

Section peak_runs.
Local Open Scope R_scope.

Lemma phase_single_block meter t g channels blocksize fadesize (audio new_audio held : buffer) :
  (0 <= fadesize)%Z -> (0 < blocksize)%Z -> Z.quot (len audio) blocksize = 1%Z ->
  DynAdapt4.phase meter t (Num g) channels blocksize fadesize audio (new_audio, held)
  = (corrected ← DynAdapt4.correct t (Num g) (meter audio) audio;
     Ok (new_audio ++ corrected, corrected)).
Proof.
  intros HF HB Hc. unfold DynAdapt4.phase, int_div.
  replace (blocksize =? 0)%Z with false by (symmetry; apply Z.eqb_neq; lia).
  rewrite bind_ok, Hc. change (range 1) with [0%Z]. rewrite for_each_singleton.
  unfold DynAdapt4.block_step. rewrite block_window_first by lia.
  change (0 =? 1 - 1)%Z with true. unfold take_window. simpl w_stop. simpl w_start.
  rewrite slice_from_nonneg by lia. change (Z.to_nat 0) with 0%nat. rewrite drop_0.
  by destruct (DynAdapt4.correct t (Num g) (meter audio) audio).
Qed.

Lemma peak_row (c : R) (row : frame) (acc : R) :
  0 <= c -> Forall (fun x => Rabs x = c) row -> (acc = 0 \/ acc = c) ->
  (foldr (fun x acc => Rmax (Rabs x) acc) acc row = 0 \/
   foldr (fun x acc => Rmax (Rabs x) acc) acc row = c) /\
  (row <> [] -> foldr (fun x acc => Rmax (Rabs x) acc) acc row = c).
Proof.
  intros Hc Hrow Hacc. induction Hrow as [|x row Hx _ IH]; simpl.
  - split; [done|]. by intros [].
  - rewrite Hx. assert (E : Rmax c (foldr (fun x acc => Rmax (Rabs x) acc) acc row) = c).
    { destruct IH as [[-> | ->] _]; apply Rmax_left; lra. }
    rewrite E. split; [by right|done].
Qed.

(** The peak of a buffer whose samples all have magnitude [c]. *)
Lemma peak_uniform (c : R) (a : buffer) :
  0 <= c -> Forall (Forall (fun x => Rabs x = c)) a ->
  (peak a = 0 \/ peak a = c) /\ (Exists (fun row => row <> []) a -> peak a = c).
Proof.
  intros Hc Ha. unfold peak. induction Ha as [|row a Hrow _ IH]; simpl.
  - split; [by left|]. intros H. by apply Exists_nil in H.
  - destruct IH as [IH1 IH2].
    destruct (peak_row c row _ Hc Hrow IH1) as [H1 H2]. split; [done|].
    intros [Hne|Hex]%Exists_cons; [by apply H2|].
    destruct row as [|x row]; [simpl; by apply IH2|]. by apply H2.
Qed.

Lemma peak_meter_uniform (c : R) (a : buffer) :
  0 < c -> Forall (Forall (fun x => Rabs x = c)) a -> Exists (fun row => row <> []) a ->
  peak_meter a = Fin (20 * log10 c).
Proof.
  intros Hc Ha He. unfold peak_meter.
  replace (peak a) with c by (symmetry; apply peak_uniform; [lra|done|done]).
  destruct (Rgt_dec c 0); [done|lra].
Qed.

(** One block of constant magnitude, louder than the clamp lets through
    (target -16 LUFS, at most 2 dB): the pass turns it down by 2 dB. *)
Lemma phase_on_loud_tone (c : R) (audio new_audio held : buffer) blocksize fadesize :
  0 < c -> -14 < 20 * log10 c ->
  Forall (Forall (fun x => Rabs x = c)) audio -> Exists (fun row => row <> []) audio ->
  (0 <= fadesize)%Z -> (0 < blocksize)%Z -> Z.quot (len audio) blocksize = 1%Z ->
  DynAdapt4.phase peak_meter (-16) (Num 2%R) 2 blocksize fadesize audio (new_audio, held)
  = Ok (new_audio ++ scale (linear_gain (-2)) audio, scale (linear_gain (-2)) audio).
Proof.
  intros Hc Hm Ha He HF HB Hq.
  rewrite phase_single_block by done.
  rewrite (peak_meter_uniform c) by done.
  rewrite correct_loud by lra. done.
Qed.

(** C1 fails as stated: three full-scale stereo frames, blocks of two
    frames.  Phase 1 turns the buffer down by 2 dB; phase 2 reads that
    output and turns its part down by 2 dB again, where a pass on the
    input buffer would have turned it down once. *)
Lemma phase2_reads_phase1_output :
  DynAdapt4.stitch peak_meter (-16) (Num 2%R) 2 (2 * 1) 1 false [[1; 1]; [1; 1]; [1; 1]]
  <> claimed_dual_phase peak_meter (-16) 2 2 (2 * 1) 1 [[1; 1]; [1; 1]; [1; 1]].
Proof.
  unfold claimed_dual_phase, DynAdapt4.run_phase, DynAdapt4.stitch.
  rewrite (phase_on_loud_tone 1); try done; try lia; try lra.
  2:{ rewrite log10_1. lra. }
  2:{ repeat constructor; apply Rabs_R1. }
  2:{ by repeat constructor. }
  rewrite !bind_ok. cbn -[linear_gain Rmult].
  set (h := linear_gain (-2)).
  assert (Hh : 0 < h < 1).
  { split; [apply linear_gain_pos|apply linear_gain_lt_1; lra]. }
  change ((2 * 1) `quot` 2)%Z with 1%Z.
  change (slice_from [[h * 1; h * 1]; [h * 1; h * 1]; [h * 1; h * 1]] 1)
    with [[h * 1; h * 1]; [h * 1; h * 1]].
  change (slice_from [[1; 1]; [1; 1]; [1; 1]] 1) with [[1; 1]; [1; 1]].
  change (slice_to [[h * 1; h * 1]; [h * 1; h * 1]; [h * 1; h * 1]] 1)
    with [[h * 1; h * 1]].
  rewrite (phase_on_loud_tone h); try done; try lia; try lra.
  2:{ replace h with (linear_gain (-2)) by done. rewrite log10_linear_gain. lra. }
  2:{ repeat constructor; rewrite Rmult_1_r; apply Rabs_pos_eq; lra. }
  2:{ by repeat constructor. }
  rewrite (phase_on_loud_tone 1); try done; try lia; try lra.
  2:{ rewrite log10_1. lra. }
  2:{ repeat constructor; apply Rabs_R1. }
  2:{ by repeat constructor. }
  fold h. rewrite !bind_ok. cbn -[Rmult].
  intros E. injection E as E _. nra.
Qed.

(** The same run, by the composition the code has. *)
Lemma dual_phase_composition_witness :
  let run := DynAdapt4.run_phase peak_meter (-16) (Num 2%R) 2 2 1 in
  exists phase1 phase2,
    run [[1; 1]; [1; 1]; [1; 1]] = Ok phase1 /\
    run (slice_from phase1 1) = Ok phase2 /\
    DynAdapt4.stitch peak_meter (-16) (Num 2%R) 2 2 1 false [[1; 1]; [1; 1]; [1; 1]]
      = Ok (slice_to phase1 1 ++ phase2).
Proof.
  intros run.
  destruct (dual_phase_composition peak_meter (-16) 2 2 2 1 [[1; 1]; [1; 1]; [1; 1]])
    as (phase1 & phase2 & H1 & H2 & H3 & _).
  - lia.
  - lia.
  - repeat constructor.
  - vm_compute. discriminate.
  - exists phase1, phase2. repeat split; assumption.
Defined.

End peak_runs.

(** ** The refined variant against the simple one *)

Section refinement.

Lemma refined_step_matches_simple meter t g channels blocksize fadesize audio count idx st :
  within_max_gain t g (meter (take_window audio (block_window blocksize fadesize count idx))) ->
  DynAdapt4.block_step meter t (Num g) channels blocksize fadesize audio count idx st
  = DynAdapt2.block_step meter t channels blocksize fadesize audio count idx st.
Proof.
  intros H. destruct st as [new_audio prev_audio].
  unfold DynAdapt4.block_step, DynAdapt2.block_step, DynAdapt4.correct.
  by rewrite limit_loudness_within.
Qed.

(** The two stitched buffers agree when the values in use agree: the
    division after the refined variant's rounding, the target after its
    validation, a crossfade ratio of 0.6, a finite maximum gain that no
    block's gap exceeds, and no phase 2. *)
Lemma stitched_match_in_use (meter : buffer -> xreal) (a : DynAdapt4.args)
  (s : DynAdapt2.settings) (samplerate channels : Z) (audio : buffer) (g : R) :
  DynAdapt4.effective_division a = DynAdapt2.division s ->
  IZR (DynAdapt4.final_loudness a) = DynAdapt2.final_loudness s ->
  DynAdapt4.xfade a = Num DynAdapt2.xfade ->
  DynAdapt4.max_gain a = Num g ->
  DynAdapt4.nophase2 a = true ->
  (forall block_count idx,
     int_div (len audio) (DynAdapt2.blocksize s samplerate) = Ok block_count ->
     (0 <= idx < block_count)%Z ->
     within_max_gain (DynAdapt2.final_loudness s) g
       (meter (take_window audio
                 (block_window (DynAdapt2.blocksize s samplerate)
                    (DynAdapt2.fadesize s samplerate) block_count idx)))) ->
  DynAdapt4.stitched meter a samplerate channels audio
  = DynAdapt2.stitched meter s samplerate channels audio.
Proof.
  intros Hd Hl Hx Hg Hp Hgap.
  unfold DynAdapt4.stitched, DynAdapt4.fadesize, DynAdapt4.blocksize.
  rewrite Hd, Hl, Hx, Hg, Hp.
  change (DynAdapt2.division s * samplerate)%Z with (DynAdapt2.blocksize s samplerate).
  change (int_of_float (int_times (DynAdapt2.blocksize s samplerate) (Num DynAdapt2.xfade)))
    with (Ok (DynAdapt2.fadesize s samplerate)).
  rewrite bind_ok. unfold DynAdapt2.stitched.
  unfold DynAdapt4.stitch, DynAdapt4.phase, DynAdapt2.stitch.
  destruct (int_div (len audio) (DynAdapt2.blocksize s samplerate)) as [block_count|f] eqn:E;
    [|done].
  rewrite !bind_ok.
  rewrite (for_each_ext _ _
             (DynAdapt2.block_step meter (DynAdapt2.final_loudness s) channels
                (DynAdapt2.blocksize s samplerate) (DynAdapt2.fadesize s samplerate)
                audio block_count)).
  - destruct (for_each _ _ _) as [[new_audio prev_audio]|f]; done.
  - intros idx st Hidx. apply refined_step_matches_simple, Hgap; [done|].
    by apply elem_of_range.
Qed.

(** C10, as the code has it: on the same buffer, with the same EVEN
    block division, the same NEGATIVE target loudness and the crossfade
    ratio 0.6 given to both scripts, phase 2 disabled and the clamp
    triggered by no block (every block's gap [|target - measured|] is
    within the finite [max_gain]), the refined variant's stitched buffer
    is the simple variant's stitched buffer, sample for sample (and a run
    that stops, stops in both). *)
Theorem refined_matches_simple (meter : buffer -> xreal) (a : DynAdapt4.args)
  (s : DynAdapt2.settings) (samplerate channels : Z) (audio : buffer) (g : R) :
  DynAdapt4.division a = DynAdapt2.division s ->
  Z.even (DynAdapt4.division a) = true ->
  IZR (DynAdapt4.loudness a) = DynAdapt2.final_loudness s ->
  (DynAdapt4.loudness a < 0)%Z ->
  DynAdapt4.crossfade a = Num DynAdapt2.xfade ->
  DynAdapt4.max_gain a = Num g ->
  DynAdapt4.nophase2 a = true ->
  (forall block_count idx,
     int_div (len audio) (DynAdapt2.blocksize s samplerate) = Ok block_count ->
     (0 <= idx < block_count)%Z ->
     within_max_gain (DynAdapt2.final_loudness s) g
       (meter (take_window audio
                 (block_window (DynAdapt2.blocksize s samplerate)
                    (DynAdapt2.fadesize s samplerate) block_count idx)))) ->
  DynAdapt4.stitched meter a samplerate channels audio
  = DynAdapt2.stitched meter s samplerate channels audio.
Proof.
  intros Hd He Hl Hneg Hx Hg Hp Hgap.
  apply (stitched_match_in_use meter a s samplerate channels audio g); try done.
  - unfold DynAdapt4.effective_division. by rewrite Zmod_even, He.
  - unfold DynAdapt4.final_loudness.
    destruct (Z.leb_spec 0 (DynAdapt4.loudness a)); [lia|done].
  - unfold DynAdapt4.xfade. by rewrite Hx.
Qed.

(** Two full-scale stereo frames in one block of two seconds at 1 Hz,
    target -16 LUFS, at most 100 dB of gain. *)
Lemma refined_matches_simple_witness :
  DynAdapt4.stitched peak_meter
    (DynAdapt4.Args "in.wav" 2 (-16) (Num 100%R) true (Num (6 # 10)%Q)) 1 2 [[1; 1]; [1; 1]]%R
  = DynAdapt2.stitched peak_meter
      (DynAdapt2.Settings "in.wav" 2 (-16)) 1 2 [[1; 1]; [1; 1]]%R.
Proof.
  apply (refined_matches_simple _ _ _ _ _ _ 100); try reflexivity.
  - unfold DynAdapt4.max_gain. simpl. f_equal. apply Rabs_right. lra.
  - intros block_count idx H Hidx.
    vm_compute in H. injection H as <-.
    assert (idx = 0%Z) as -> by lia.
    change (take_window _ _) with [[1; 1]; [1; 1]]%R.
    rewrite (peak_meter_uniform 1);
      [|lra|repeat constructor; apply Rabs_R1|by repeat constructor].
    simpl. rewrite log10_1.
    rewrite (Rabs_left (-16 - 20 * 0)); lra.
Defined.

(** C10 fails as stated: the same odd division 3 given to both scripts,
    the same target, the ratio 0.6, phase 2 off and a meter that reads
    the target everywhere (the clamp has nothing to do).  The refined
    variant rounds the division up to 4 and finds no block in three
    frames at 1 Hz; the simple variant keeps 3 and returns the three
    frames. *)
Lemma refined_rounds_odd_division :
  let a := DynAdapt4.Args "in.wav" 3 (-16) (Num 100%R) true (Num (6 # 10)%Q) in
  let s := DynAdapt2.Settings "in.wav" 3 (-16) in
  let meter := fun _ : buffer => Fin (-16) in
  let audio := [[1; 1]; [1; 1]; [1; 1]]%R in
  DynAdapt4.division a = DynAdapt2.division s /\
  IZR (DynAdapt4.loudness a) = DynAdapt2.final_loudness s /\
  DynAdapt4.crossfade a = Num DynAdapt2.xfade /\
  DynAdapt4.nophase2 a = true /\
  DynAdapt4.stitched meter a 1 2 audio = Ok [] /\
  (exists out, DynAdapt2.stitched meter s 1 2 audio = Ok out /\ len out = 3%Z) /\
  DynAdapt4.stitched meter a 1 2 audio <> DynAdapt2.stitched meter s 1 2 audio.
Proof.
  intros a s meter audio.
  assert (H4 : DynAdapt4.stitched meter a 1 2 audio = Ok []) by reflexivity.
  assert (H2 : DynAdapt2.stitched meter s 1 2 audio
               = Ok (scale (linear_gain (-16 - -16)) audio)) by reflexivity.
  split; [done|]. split; [done|]. split; [done|]. split; [done|]. split; [done|].
  split.
  - exists (scale (linear_gain (-16 - -16)) audio). split; [done|reflexivity].
  - rewrite H4, H2. discriminate.
Qed.

End refinement.

(** ** The block planner *)

Section planner.
Local Open Scope Z_scope.

(** C3 fails as stated: ten frames in blocks of four make two windows,
    not [ceil(10 / 4) = 3]. *)
Lemma plan_count_not_ceil :
  ~ exists ws, plan 10 1 4 (6 # 10) = Ok ws /\ len ws = ceil_div 10 (4 * 1).
Proof. intros (ws & H & Hl). vm_compute in H. injection H as <-. discriminate Hl. Qed.

(** C3, as the code has it: for a buffer of at least one block
    ([blocksize = division * samplerate > 0]), the planner makes exactly
    [floor(samples / blocksize)] windows, and the last one is the open
    slice: it stops at [samples], taking the remainder with it. *)
Theorem plan_floor_windows (samples samplerate division : Z) (xfade : Q) :
  0 < division * samplerate <= samples ->
  exists ws w,
    plan samples samplerate division xfade = Ok ws /\
    len ws = samples / (division * samplerate) /\
    last ws = Some w /\
    window_stop samples w = samples.
Proof.
  intros H. unfold plan, block_windows, int_div.
  set (blocksize := division * samplerate) in *.
  set (fadesize := int_of_Q _).
  replace (blocksize =? 0) with false by (symmetry; apply Z.eqb_neq; lia).
  rewrite bind_ok, Z.quot_div_nonneg by lia.
  set (block_count := samples / blocksize).
  assert (Hc : 1 <= block_count) by (apply Z.div_le_lower_bound; lia).
  eexists. exists (block_window blocksize fadesize block_count (block_count - 1)).
  split; [done|]. split; [|split].
  - unfold len. rewrite length_fmap, range_length. lia.
  - replace block_count with (block_count - 1 + 1) at 2 by lia.
    rewrite range_succ, fmap_app by lia. simpl. by rewrite last_snoc.
  - unfold block_window. rewrite Z.eqb_refl. done.
Qed.

Lemma plan_floor_windows_witness :
  exists ws w,
    plan 10 1 4 (6 # 10) = Ok ws /\ len ws = 10 / (4 * 1) /\
    last ws = Some w /\ window_stop 10 w = 10.
Proof. apply plan_floor_windows. lia. Defined.

End planner.

(** ** Buffers shorter than one block *)

Section short_buffers.
Local Open Scope Z_scope.

(** With fewer samples than one block the loop has nothing to visit, and
    the phase pass returns the empty buffer it started with. *)
Lemma short_buffer_yields_nothing meter t g channels blocksize fadesize (audio : buffer) :
  len audio < blocksize ->
  DynAdapt4.run_phase meter t (Num g) channels blocksize fadesize audio = Ok [] /\
  DynAdapt2.stitch meter t channels blocksize fadesize audio = Ok [].
Proof.
  intros H. pose proof (len_nonneg audio).
  unfold DynAdapt4.run_phase, DynAdapt4.phase, DynAdapt2.stitch, int_div.
  replace (blocksize =? 0) with false by (symmetry; apply Z.eqb_neq; lia).
  rewrite !bind_ok, Z.quot_small by lia. done.
Qed.

(** C4 at a buffer shorter than one block: one stereo frame, blocks of
    two frames.  The pass of either script returns no sample at all. *)
Theorem short_buffer_dropped :
  DynAdapt4.run_phase peak_meter (-16) (Num 2%R) 2 (2 * 1) 1 [[1; 1]]%R = Ok [] /\
  DynAdapt2.stitch peak_meter (-16) 2 (2 * 1) 1 [[1; 1]]%R = Ok [].
Proof. split; reflexivity. Qed.

End short_buffers.

(** ** The channel check *)

(** C2 at a mono file: [always_2d=True] gives the array two dimensions,
    so the mono branch of the check is never taken; one channel passes
    the test [channels > 2] and the run goes on into the pipeline, in
    both scripts, instead of printing a message and exiting. *)
Theorem mono_input_proceeds (meter : buffer -> xreal) (samplerate : Z) (frames : buffer)
  (a : DynAdapt4.args) (s : DynAdapt2.settings) (message : string) :
  let fs := fun _ : string => Some (SoundFile samplerate 1 frames) in
  channel_check (shape (SoundFile samplerate 1 frames)) = inr 1%Z /\
  DynAdapt4.main meter fs a <> Exited message /\
  DynAdapt2.main meter fs s <> Exited message.
Proof.
  intros fs. split; [done|]. unfold DynAdapt4.main, DynAdapt2.main. simpl.
  split.
  - by destruct (DynAdapt4.stitched _ _ _ _ _ ≫= _).
  - by destruct (DynAdapt2.stitched _ _ _ _ _ ≫= _).
Qed.

(** ** The name of the output file *)

Lemma list_ascii_of_string_app (s1 s2 : string) :
  list_ascii_of_string (s1 ++ s2) = list_ascii_of_string s1 ++ list_ascii_of_string s2.
Proof. induction s1 as [|c s1 IH]; simpl; [done|]. by rewrite IH. Qed.

Lemma list_ascii_length (s : string) : length (list_ascii_of_string s) = String.length s.
Proof. induction s as [|c s IH]; simpl; [done|]. by rewrite IH. Qed.

Lemma new_name_length (filename : string) :
  String.length (new_name filename) = (String.length filename - 4 + 8)%nat.
Proof.
  unfold new_name, slice_to, clip_bound, len. simpl.
  rewrite <- list_ascii_length, list_ascii_of_string_app, length_app.
  rewrite list_ascii_of_string_of_list_ascii, length_take, !list_ascii_length.
  simpl. lia.
Qed.

Lemma string_app_length (s1 s2 : string) :
  String.length (s1 ++ s2) = (String.length s1 + String.length s2)%nat.
Proof. by rewrite <- !list_ascii_length, list_ascii_of_string_app, length_app. Qed.

Lemma new_name_four_char_extension (name ext : string) :
  String.length ext = 4%nat ->
  new_name (name ++ ext) = (name ++ "_new.wav")%string.
Proof.
  intros H. unfold new_name, slice_to, clip_bound, len. simpl.
  rewrite list_ascii_of_string_app, length_app, !list_ascii_length, H.
  replace (Z.to_nat _) with (length (list_ascii_of_string name)).
  - by rewrite take_app_length, string_of_list_ascii_of_string.
  - rewrite list_ascii_length. lia.
Qed.

(** C9 at [song.flac]: the code drops the last [ext_length = 4]
    characters of the name, whatever its extension, and writes
    [song._new.wav] (the dot of the five-character extension stays) where
    removing the extension gives [song_new.wav].  Its comment says
    "Remove extension from filename"; for a name [name ++ ext] with a
    stem that is not empty, the output is [name ++ "_new.wav"] exactly
    when [ext] has four characters (a dot and three letters, as in
    [.wav]). *)
Theorem new_name_fixed_ext_length :
  new_name "song.flac" = "song._new.wav"%string /\
  claimed_new_name "song.flac" = "song_new.wav"%string /\
  forall name ext : string,
    name <> ""%string ->
    new_name (name ++ ext) = (name ++ "_new.wav")%string <-> String.length ext = 4%nat.
Proof.
  split; [reflexivity|]. split; [reflexivity|].
  intros name ext Hname. split; [|apply new_name_four_char_extension].
  intros H. pose proof (new_name_length (name ++ ext)) as Hl.
  rewrite H, !string_app_length in Hl. simpl in Hl.
  destruct name as [|c name]; [done|]. simpl in Hl. lia.
Qed.

(** [take.aiff] becomes [take._new.wav], not [take_new.wav]; [take.wav]
    becomes [take_new.wav]. *)
Lemma new_name_fixed_ext_length_witness :
  new_name ("take" ++ ".aiff") <> ("take" ++ "_new.wav")%string /\
  new_name ("take" ++ ".wav") = ("take" ++ "_new.wav")%string.
Proof.
  destruct new_name_fixed_ext_length as (_ & _ & H).
  split.
  - intros E. apply (H "take" ".aiff")%string in E; discriminate.
  - apply (H "take" ".wav")%string; [discriminate|reflexivity].
Defined.

(** * Further properties of the scripts *)

(** ** Buffers related by gains *)

Section gained_facts.

Variable P : R -> Prop.

Lemma gained_scale k (a : buffer) : P k -> gained P a (scale k a).
Proof.
  intros Hk. unfold gained, scale. apply Forall2_fmap_r, Forall_Forall2_diag.
  apply Forall_forall. intros row _. apply Forall2_fmap_r, Forall_Forall2_diag.
  apply Forall_forall. intros x _. by exists k.
Qed.

Lemma gained_len (a b : buffer) : gained P a b -> len b = len a.
Proof. intros H. unfold len. by rewrite (Forall2_length _ _ _ H). Qed.

Lemma gained_shape channels (a b : buffer) :
  gained P a b -> well_shaped channels a -> well_shaped channels b.
Proof.
  unfold gained, well_shaped. intros H Ha.
  induction H as [|x y a b Hxy _ IH]; [done|].
  apply Forall_cons in Ha as [Hx Ha]. constructor; [|by apply IH].
  unfold len in *. by rewrite <- (Forall2_length _ _ _ Hxy).
Qed.

Lemma gained_app (a1 a2 b1 b2 : buffer) :
  gained P a1 b1 -> gained P a2 b2 -> gained P (a1 ++ a2) (b1 ++ b2).
Proof. apply Forall2_app. Qed.

Lemma gained_take n (a b : buffer) : gained P a b -> gained P (take n a) (take n b).
Proof. apply Forall2_take. Qed.

Lemma gained_drop n (a b : buffer) : gained P a b -> gained P (drop n a) (drop n b).
Proof. apply Forall2_drop. Qed.

Lemma gained_nil : gained P [] [].
Proof. constructor. Qed.

Hypothesis Hconvex : convex P.

Lemma gained_blend_row fadesize j (src prow srow : frame) :
  (0 <= j < fadesize)%Z ->
  Forall2 (sample_gain P) src prow -> Forall2 (sample_gain P) src srow ->
  Forall2 (sample_gain P) src (blend_row fadesize j prow srow).
Proof using Hconvex.
  intros Hj Hp. revert srow. unfold blend_row.
  induction Hp as [|x p src prow (k1 & Hk1 & ->) _ IH]; intros srow Hs.
  - inversion Hs; subst. constructor.
  - inversion Hs as [|? s ? srow' (k2 & Hk2 & ->) Hs']; subst. simpl.
    constructor; [|by apply IH].
    exists ((1 - IZR j * (1 / IZR fadesize)) * k1 + IZR j * (1 / IZR fadesize) * k2)%R.
    split; [|ring].
    apply Hconvex; [done|done|].
    pose proof (blend_weight_bounds j fadesize Hj) as Hw.
    replace (IZR j * (1 / IZR fadesize))%R with (IZR j / IZR fadesize)%R
      by (unfold Rdiv; ring).
    lra.
Qed.

Lemma gained_blended blocksize fadesize (psrc ssrc sub_audio prev_audio : buffer) :
  (0 <= fadesize <= blocksize)%Z ->
  (blocksize <= len psrc)%Z -> (fadesize <= len ssrc)%Z ->
  gained P psrc prev_audio -> gained P ssrc sub_audio ->
  (forall j : nat, (Z.of_nat j < fadesize)%Z ->
     ssrc !! j = psrc !! Z.to_nat (Z.of_nat j + blocksize - fadesize)) ->
  gained P psrc (blended blocksize fadesize sub_audio prev_audio (Z.to_nat fadesize)).
Proof using Hconvex.
  intros Hfade Hpl Hsl Hp Hs Halign.
  assert (Hpl' : (blocksize <= len prev_audio)%Z) by (rewrite (gained_len _ _ Hp); lia).
  apply Forall2_same_length_lookup. split.
  { rewrite blended_length. apply (Forall2_length _ _ _ Hp). }
  intros i src row Hsrc Hrow.
  destruct (decide (blocksize - fadesize <= Z.of_nat i < blocksize)%Z) as [Hin|Hout].
  - set (j := Z.to_nat (Z.of_nat i - (blocksize - fadesize))).
    assert (Hi : i = Z.to_nat (Z.of_nat j + blocksize - fadesize)) by lia.
    rewrite Hi in Hrow, Hsrc.
    rewrite (blended_lookup_fade blocksize fadesize sub_audio prev_audio Hfade Hpl')
      in Hrow by lia.
    injection Hrow as <-.
    destruct (Forall2_lookup_l _ _ _ _ _ Hp Hsrc) as (prow & Hprow & Hgp).
    rewrite <- Halign in Hsrc by lia.
    destruct (Forall2_lookup_l _ _ _ _ _ Hs Hsrc) as (srow & Hsrow & Hgs).
    rewrite Hprow, Hsrow. simpl.
    apply gained_blend_row; [lia|done|done].
  - rewrite blended_lookup_other in Hrow by (intros k Hk; lia).
    by apply (Forall2_lookup_lr _ _ _ _ _ _ Hp Hsrc Hrow).
Qed.

End gained_facts.

(** ** The block loop, for any correction *)

Section generic_loop.
Local Open Scope Z_scope.

Variable corr : buffer -> outcome buffer.
Variables (channels blocksize fadesize : Z).
Variable audio : buffer.
Variable P : R -> Prop.

Hypothesis Hblock : 0 < blocksize.
Hypothesis Hfade : 0 <= fadesize < blocksize.
Hypothesis Hlong : blocksize <= len audio.
Hypothesis Hshape : well_shaped channels audio.
Hypothesis Hconvex : convex P.

Local Abbreviation block_count := (Z.quot (len audio) blocksize).
Local Abbreviation gstep :=
  (generic_step corr channels blocksize fadesize audio block_count).
Local Abbreviation win idx :=
  (take_window audio (block_window blocksize fadesize block_count idx)).
Local Abbreviation held idx := (held_len (len audio) blocksize idx).

Lemma held_len_pos idx : 0 <= idx < block_count -> 0 < held idx /\ idx * blocksize + held idx <= len audio.
Proof using Hblock Hlong.
  intros H. destruct (block_count_bounds blocksize audio Hblock Hlong) as [Hc1 Hc2].
  unfold held_len. destruct (Z.eqb_spec idx (block_count - 1)); nia.
Qed.

Lemma window_first :
  win 0 = take (Z.to_nat (held 0)) audio.
Proof using Hblock Hfade Hlong.
  destruct (block_count_bounds blocksize audio Hblock Hlong) as [Hc1 Hc2].
  rewrite block_window_first by lia. unfold take_window, held_len.
  destruct (Z.eqb_spec 0 (block_count - 1)) as [E|E]; simpl.
  - rewrite slice_from_nonneg by lia. simpl. rewrite take_ge; [done|].
    unfold len in *. lia.
  - rewrite slice_inside by nia. simpl. rewrite Z.sub_0_r. done.
Qed.

Lemma window_later idx :
  1 <= idx < block_count ->
  win idx = take (Z.to_nat (held idx + fadesize))
              (drop (Z.to_nat (idx * blocksize - fadesize)) audio).
Proof using Hblock Hfade Hlong.
  intros Hidx.
  destruct (block_count_bounds blocksize audio Hblock Hlong) as [Hc1 Hc2].
  rewrite block_window_later by nia. unfold take_window, held_len.
  destruct (Z.eqb_spec idx (block_count - 1)) as [E|E]; simpl.
  - rewrite slice_from_nonneg by nia. rewrite take_ge; [done|].
    rewrite length_drop. unfold len in *. nia.
  - rewrite slice_inside by nia. f_equal. nia.
Qed.

Lemma generic_loop (k : nat) new_audio prev_audio :
  1 <= Z.of_nat k <= block_count ->
  (forall idx, 0 <= idx < Z.of_nat k -> corrects P corr (win idx)) ->
  exists out kept,
    for_each (range (Z.of_nat k)) gstep (new_audio, prev_audio) = Ok (new_audio ++ out, kept) /\
    gained P (take (Z.to_nat ((Z.of_nat k - 1) * blocksize)) audio) out /\
    gained P (take (Z.to_nat (held (Z.of_nat k - 1)))
                (drop (Z.to_nat ((Z.of_nat k - 1) * blocksize)) audio)) kept.
Proof using Hblock Hfade Hlong Hshape Hconvex.
  destruct (block_count_bounds blocksize audio Hblock Hlong) as [Hc1 Hc2].
  induction k as [|k IH]; intros Hk Hcorr; [lia|].
  replace (Z.of_nat (S k)) with (Z.of_nat k + 1) in * by lia.
  rewrite range_succ, for_each_app by lia.
  replace (Z.of_nat k + 1 - 1) with (Z.of_nat k) by lia.
  destruct (decide (k = 0%nat)) as [->|Hne].
  - change (Z.of_nat 0) with 0 in *. rewrite (range_nonpos 0) by lia.
    change (for_each [] gstep (new_audio, prev_audio)) with (Ok (new_audio, prev_audio)).
    rewrite bind_ok, for_each_singleton. unfold generic_step.
    destruct (Hcorr 0) as (g & Hg & ->); [lia|]. rewrite bind_ok. simpl.
    exists [], (scale g (win 0)). rewrite app_nil_r. split; [done|]. split.
    + simpl. apply gained_nil.
    + simpl. rewrite drop_0, <- window_first. by apply gained_scale.
  - destruct IH as (out & kept & -> & Hout & Hkept); [lia|intros; apply Hcorr; lia|].
    rewrite bind_ok, for_each_singleton.
    destruct (held_len_pos (Z.of_nat k - 1)) as [_ Hprev]; [lia|].
    destruct (held_len_pos (Z.of_nat k)) as [Hh1 Hh2]; [lia|].
    assert (Hhp : held (Z.of_nat k - 1) = blocksize).
    { unfold held_len. destruct (Z.eqb_spec (Z.of_nat k - 1) (block_count - 1)); lia. }
    rewrite Hhp in Hkept.
    set (psrc := take (Z.to_nat blocksize)
                   (drop (Z.to_nat ((Z.of_nat k - 1) * blocksize)) audio)) in *.
    set (ssrc := win (Z.of_nat k)).
    assert (Hssrc : ssrc = take (Z.to_nat (held (Z.of_nat k) + fadesize))
                             (drop (Z.to_nat (Z.of_nat k * blocksize - fadesize)) audio))
      by (apply window_later; lia).
    assert (Hpl : len psrc = blocksize).
    { unfold psrc, len in *. rewrite length_take, length_drop. nia. }
    assert (Hsl : len ssrc = held (Z.of_nat k) + fadesize).
    { rewrite Hssrc. unfold len in *. rewrite length_take, length_drop. nia. }
    unfold generic_step. fold ssrc.
    destruct (Hcorr (Z.of_nat k)) as (g & Hg & Hc); [lia|].
    fold ssrc in Hc. rewrite Hc, bind_ok.
    replace (0 <? Z.of_nat k) with true by (symmetry; apply Z.ltb_lt; lia).
    assert (Hgs : gained P ssrc (scale g ssrc)) by by apply gained_scale.
    assert (Hps : well_shaped channels psrc).
    { unfold psrc, well_shaped. by apply Forall_take, Forall_drop. }
    rewrite (crossfade_into_ok channels blocksize fadesize);
      [|lia|rewrite (gained_len _ _ _ Hkept); lia|rewrite scale_len; lia
       |by apply (gained_shape P channels psrc)
       |apply scale_shape, take_window_shape, Hshape].
    rewrite bind_ok.
    eexists (out ++ _), _. rewrite app_assoc. split; [done|]. split.
    + replace (Z.to_nat (Z.of_nat k * blocksize))
        with (Z.to_nat ((Z.of_nat k - 1) * blocksize) + Z.to_nat blocksize)%nat by nia.
      rewrite <- take_take_drop. apply gained_app; [done|].
      apply (gained_blended P Hconvex blocksize fadesize psrc ssrc);
        [lia|lia|lia|done|done|].
      intros j Hj. rewrite Hssrc. unfold psrc.
      rewrite !lookup_take_lt, !lookup_drop by lia. f_equal. nia.
    + rewrite slice_from_nonneg by lia.
      replace (take (Z.to_nat (held (Z.of_nat k)))
                 (drop (Z.to_nat (Z.of_nat k * blocksize)) audio))
        with (drop (Z.to_nat fadesize) ssrc); [by apply gained_drop|].
      rewrite Hssrc.
      replace (Z.to_nat (held (Z.of_nat k) + fadesize))
        with (Z.to_nat fadesize + Z.to_nat (held (Z.of_nat k)))%nat by lia.
      rewrite <- take_drop_commute, drop_drop. do 2 f_equal. nia.
Qed.

Lemma generic_pass new_audio prev_audio :
  (forall idx, 0 <= idx < block_count -> corrects P corr (win idx)) ->
  exists out kept,
    for_each (range block_count) gstep (new_audio, prev_audio)
      = Ok (new_audio ++ out, kept) /\
    gained P audio (out ++ kept).
Proof using Hblock Hfade Hlong Hshape Hconvex.
  intros Hcorr.
  destruct (block_count_bounds blocksize audio Hblock Hlong) as [Hc1 Hc2].
  destruct (generic_loop (Z.to_nat block_count) new_audio prev_audio)
    as (out & kept & Hloop & Hout & Hkept); [lia|intros; apply Hcorr; lia|].
  rewrite Z2Nat.id in Hloop, Hout, Hkept by lia.
  exists out, kept. split; [done|].
  replace audio with
    (take (Z.to_nat ((block_count - 1) * blocksize)) audio ++
     take (Z.to_nat (held (block_count - 1)))
       (drop (Z.to_nat ((block_count - 1) * blocksize)) audio)) at 1;
    [by apply gained_app|].
  rewrite take_take_drop. apply take_ge.
  unfold held_len. rewrite Z.eqb_refl. unfold len in *. nia.
Qed.

End generic_loop.

(** ** The passes of the refined variant *)

Section refined_pass.
Local Open Scope R_scope.

Lemma refined_step_generic meter t g channels blocksize fadesize audio count idx st :
  DynAdapt4.block_step meter t (Num g) channels blocksize fadesize audio count idx st
  = generic_step (fun sub => DynAdapt4.correct t (Num g) (meter sub) sub)
      channels blocksize fadesize audio count idx st.
Proof. by destruct st. Qed.

Lemma simple_step_generic meter t channels blocksize fadesize audio count idx st :
  DynAdapt2.block_step meter t channels blocksize fadesize audio count idx st
  = generic_step (fun sub => normalize_loudness sub (meter sub) t)
      channels blocksize fadesize audio count idx st.
Proof. by destruct st. Qed.

Lemma linear_gain_le d e : d <= e -> linear_gain d <= linear_gain e.
Proof.
  intros [H| ->]; [left; by apply linear_gain_increasing|right; done].
Qed.

Lemma linear_gain_plus d e : linear_gain (d + e) = linear_gain d * linear_gain e.
Proof.
  unfold linear_gain. rewrite <- Rpower_plus. f_equal. lra.
Qed.

Lemma applied_gain_bounded t g l a :
  0 <= g -> DynAdapt4.applied_gain t (Num g) l = Fin a -> - g <= a <= g.
Proof.
  intros Hg. destruct l as [|m|].
  - rewrite applied_gain_neg_inf. intros [= <-]. lra.
  - rewrite applied_gain_fin. intros [= <-].
    destruct (Rgt_dec (Rabs (t - m)) g) as [H|H]; [destruct (Rgt_dec m t); lra|].
    revert H. unfold Rabs. destruct (Rcase_abs (t - m)); lra.
  - rewrite applied_gain_pos_inf. intros [= <-]. lra.
Qed.

Lemma within_db_convex g : convex (within_db g).
Proof. unfold convex, within_db. intros k1 k2 w H1 H2 Hw. split; nra. Qed.

Lemma refined_corrects meter t g w :
  0 <= g -> corrects (within_db g) (fun sub => DynAdapt4.correct t (Num g) (meter sub) sub) w.
Proof.
  intros Hg. destruct (correct_scales t g (meter w) w) as (a & Ha & Hc).
  exists (linear_gain a). split; [|done].
  apply applied_gain_bounded in Ha; [|done].
  split; apply linear_gain_le; lra.
Qed.

Lemma gained_sample P (a b : buffer) i c x :
  gained P a b -> sample a i c = Some x ->
  exists k, P k /\ sample b i c = Some (k * x).
Proof.
  unfold sample. intros H Hx.
  destruct (a !! i) as [row|] eqn:Ha; [|done]. simpl in Hx.
  destruct (Forall2_lookup_l _ _ _ _ _ H Ha) as (row' & Hb & Hrow).
  destruct (Forall2_lookup_l _ _ _ _ _ Hrow Hx) as (y & Hy & k & Hk & ->).
  exists k. split; [done|]. rewrite Hb. done.
Qed.

Lemma gained_impl (P Q : R -> Prop) (a b : buffer) :
  (forall k, P k -> Q k) -> gained P a b -> gained Q a b.
Proof.
  intros HPQ H. eapply Forall2_impl; [exact H|].
  intros r1 r2 Hr. eapply Forall2_impl; [exact Hr|].
  intros x y (k & Hk & ->). exists k. auto.
Qed.

Lemma gained_eq k (a b : buffer) : gained (eq k) a b -> b = scale k a.
Proof.
  unfold gained, scale. intros H. induction H as [|r1 r2 a b Hr _ IH]; [done|].
  simpl. rewrite IH. f_equal.
  clear IH. induction Hr as [|x y r1 r2 (k' & <- & ->) _ IH]; [done|].
  simpl. by rewrite IH.
Qed.

Lemma scale_1 (a : buffer) : scale 1 a = a.
Proof.
  unfold scale. rewrite <- (list_fmap_id a) at 2.
  apply list_fmap_ext. intros i row _. simpl.
  rewrite <- (list_fmap_id row) at 2.
  apply list_fmap_ext. intros j x _. apply Rmult_1_l.
Qed.

End refined_pass.

Section refined_phase.
Local Open Scope Z_scope.

Variable meter : buffer -> xreal.
Variables (final_loudness max_gain : R).
Variables (channels blocksize fadesize : Z).
Variable audio : buffer.
Variable P : R -> Prop.

Hypothesis Hblock : 0 < blocksize.
Hypothesis Hfade : 0 <= fadesize < blocksize.
Hypothesis Hlong : blocksize <= len audio.
Hypothesis Hshape : well_shaped channels audio.
Hypothesis Hconvex : convex P.
Hypothesis Hcorr : forall idx,
  0 <= idx < Z.quot (len audio) blocksize ->
  corrects P (fun sub => DynAdapt4.correct final_loudness (Num max_gain) (meter sub) sub)
    (take_window audio
       (block_window blocksize fadesize (Z.quot (len audio) blocksize) idx)).

Lemma refined_phase_gained new_audio prev_audio :
  exists out kept,
    DynAdapt4.phase meter final_loudness (Num max_gain) channels blocksize fadesize audio
      (new_audio, prev_audio) = Ok (new_audio ++ out, kept) /\
    gained P audio out.
Proof using Hblock Hfade Hlong Hshape Hconvex Hcorr.
  unfold DynAdapt4.phase, int_div.
  replace (blocksize =? 0) with false by (symmetry; apply Z.eqb_neq; lia).
  rewrite bind_ok.
  rewrite (for_each_ext _ _
    (generic_step (fun sub => DynAdapt4.correct final_loudness (Num max_gain) (meter sub) sub)
       channels blocksize fadesize audio (Z.quot (len audio) blocksize)))
    by (intros; apply refined_step_generic).
  destruct (generic_pass _ channels blocksize fadesize audio P
              Hblock Hfade Hlong Hshape Hconvex new_audio prev_audio Hcorr)
    as (out & kept & -> & Hg).
  rewrite bind_ok. simpl. exists (out ++ kept), kept. by rewrite app_assoc.
Qed.

End refined_phase.

Section pass_theorems.
Local Open Scope Z_scope.

Lemma gained_trans (P Q : R -> Prop) (a b c : buffer) :
  gained P a b -> gained Q b c ->
  gained (fun k => exists k1 k2, P k1 /\ Q k2 /\ k = (k2 * k1)%R) a c.
Proof.
  unfold gained. apply Forall2_trans. intros r1 r2 r3.
  apply Forall2_trans. intros x y z (k1 & H1 & ->) (k2 & H2 & ->).
  exists (k2 * k1)%R. split; [by exists k1, k2|ring].
Qed.

Lemma within_db_twice g k1 k2 :
  (0 <= g)%R -> within_db g k1 -> within_db g k2 -> within_db (2 * g) (k2 * k1)%R.
Proof.
  unfold within_db. intros Hg [H1 H1'] [H2 H2'].
  replace (- (2 * g))%R with (- g + - g)%R by lra.
  replace (2 * g)%R with (g + g)%R by lra.
  rewrite !linear_gain_plus.
  pose proof (linear_gain_pos (- g)). pose proof (linear_gain_pos g).
  split; nra.
Qed.

Lemma within_db_widen g k : (0 <= g)%R -> within_db g k -> within_db (2 * g) k.
Proof.
  unfold within_db. intros Hg [H1 H2]. split.
  - etrans; [|exact H1]. apply linear_gain_le. lra.
  - etrans; [exact H2|]. apply linear_gain_le. lra.
Qed.

(** A pass of the refined variant on a buffer of at least one block, from
    any state: every sample comes back times a factor within the clamp. *)
Lemma refined_phase_within meter t g channels blocksize fadesize (audio : buffer)
  new_audio prev_audio :
  (0 <= g)%R -> 0 < blocksize -> 0 <= fadesize < blocksize ->
  blocksize <= len audio -> well_shaped channels audio ->
  exists out kept,
    DynAdapt4.phase meter t (Num g) channels blocksize fadesize audio (new_audio, prev_audio)
      = Ok (new_audio ++ out, kept) /\
    gained (within_db g) audio out.
Proof.
  intros Hg HB HF HN Hs.
  apply refined_phase_gained; try done.
  - apply within_db_convex.
  - intros idx _. by apply refined_corrects.
Qed.

Lemma refined_phase_uniform meter t g channels blocksize fadesize (audio : buffer) a :
  0 < blocksize -> 0 <= fadesize < blocksize ->
  blocksize <= len audio -> well_shaped channels audio ->
  (forall idx, 0 <= idx < Z.quot (len audio) blocksize ->
     DynAdapt4.applied_gain t (Num g)
       (meter (take_window audio
                 (block_window blocksize fadesize (Z.quot (len audio) blocksize) idx)))
     = Fin a) ->
  DynAdapt4.run_phase meter t (Num g) channels blocksize fadesize audio
  = Ok (scale (linear_gain a) audio).
Proof.
  intros HB HF HN Hs Hgain.
  destruct (refined_phase_gained meter t g channels blocksize fadesize audio
              (eq (linear_gain a)) HB HF HN Hs) with (new_audio := @nil (list R))
              (prev_audio := @nil (list R)) as (out & kept & Hp & Hg).
  - intros k1 k2 w <- <- _. ring.
  - intros idx Hidx. exists (linear_gain a). split; [done|].
    destruct (correct_scales t g (meter (take_window audio
                (block_window blocksize fadesize (Z.quot (len audio) blocksize) idx)))
                (take_window audio
                (block_window blocksize fadesize (Z.quot (len audio) blocksize) idx)))
      as (a' & Ha' & Hc).
    rewrite Hgain in Ha' by done. injection Ha' as <-. done.
  - unfold DynAdapt4.run_phase. rewrite Hp. simpl. f_equal. by apply gained_eq.
Qed.

(** X6: a phase pass of the refined variant on a rectangular buffer of
    at least one block succeeds, keeps the number of frames and the
    shape, and returns every sample times a factor between
    [10^(-max_gain/20)] and [10^(max_gain/20)]: blending included, no
    sample moves by more than [max_gain] dB. *)
Theorem phase_pass_within_max_gain (meter : buffer -> xreal) (final_loudness max_gain : R)
  (channels blocksize fadesize : Z) (audio : buffer) :
  (0 <= max_gain)%R -> 0 < blocksize -> 0 <= fadesize < blocksize ->
  blocksize <= len audio -> well_shaped channels audio ->
  exists out,
    DynAdapt4.run_phase meter final_loudness (Num max_gain) channels blocksize fadesize audio
      = Ok out /\
    len out = len audio /\
    well_shaped channels out /\
    forall i c x, sample audio i c = Some x ->
      exists k, (Rpower 10 (- max_gain / 20) <= k <= Rpower 10 (max_gain / 20))%R /\
                sample out i c = Some (k * x)%R.
Proof.
  intros Hg HB HF HN Hs.
  destruct (refined_phase_within meter final_loudness max_gain channels blocksize fadesize
              audio [] [] Hg HB HF HN Hs) as (out & kept & Hp & Hgd).
  exists out. unfold DynAdapt4.run_phase. rewrite Hp. split; [done|].
  split; [by apply (gained_len _ _ _ Hgd)|].
  split; [by apply (gained_shape _ _ _ _ Hgd)|].
  intros i c x Hx. apply (gained_sample _ _ _ _ _ _ Hgd Hx).
Qed.

(** X7: when every block gets the same gain [a] dB, the pass returns
    the whole buffer scaled by [10^(a/20)]: the crossfades leave no
    trace. *)
Theorem phase_pass_uniform_gain (meter : buffer -> xreal) (final_loudness max_gain : R)
  (channels blocksize fadesize : Z) (audio : buffer) (a : R) :
  0 < blocksize -> 0 <= fadesize < blocksize ->
  blocksize <= len audio -> well_shaped channels audio ->
  (forall idx, 0 <= idx < Z.quot (len audio) blocksize ->
     DynAdapt4.applied_gain final_loudness (Num max_gain)
       (meter (take_window audio
                 (block_window blocksize fadesize (Z.quot (len audio) blocksize) idx)))
     = Fin a) ->
  DynAdapt4.run_phase meter final_loudness (Num max_gain) channels blocksize fadesize audio
  = Ok (scale (Rpower 10 (a / 20)) audio).
Proof. apply refined_phase_uniform. Qed.

(** X8: a buffer whose every block measures exactly the target
    loudness comes out of the pass unchanged, sample for sample. *)
Theorem phase_pass_on_target_is_identity (meter : buffer -> xreal)
  (final_loudness max_gain : R) (channels blocksize fadesize : Z) (audio : buffer) :
  (0 <= max_gain)%R -> 0 < blocksize -> 0 <= fadesize < blocksize ->
  blocksize <= len audio -> well_shaped channels audio ->
  (forall idx, 0 <= idx < Z.quot (len audio) blocksize ->
     meter (take_window audio
              (block_window blocksize fadesize (Z.quot (len audio) blocksize) idx))
     = Fin final_loudness) ->
  DynAdapt4.run_phase meter final_loudness (Num max_gain) channels blocksize fadesize audio
  = Ok audio.
Proof.
  intros Hg HB HF HN Hs Hm.
  rewrite (refined_phase_uniform meter final_loudness max_gain channels blocksize fadesize
             audio 0); try done.
  - by rewrite linear_gain_0, scale_1.
  - intros idx Hidx. rewrite Hm by done. rewrite applied_gain_fin.
    destruct (Rgt_dec _ max_gain) as [H|H]; [|f_equal; lra].
    exfalso. revert H. unfold Rabs. destruct (Rcase_abs _); lra.
Qed.

(** The two phases on a buffer of at least one and a half blocks. *)
Lemma dual_phase_gained meter t g channels blocksize fadesize (audio : buffer) :
  (0 <= g)%R -> 0 < blocksize -> 0 <= fadesize < blocksize ->
  blocksize + Z.quot blocksize 2 <= len audio -> well_shaped channels audio ->
  exists out,
    DynAdapt4.stitch meter t (Num g) channels blocksize fadesize false audio = Ok out /\
    gained (within_db (2 * g)) audio out.
Proof.
  intros Hg HB HF HN Hs.
  assert (Hh : 0 <= Z.quot blocksize 2) by (apply Z.quot_pos; lia).
  destruct (refined_phase_within meter t g channels blocksize fadesize
              audio [] [] Hg HB HF ltac:(lia) Hs) as (p1 & kept & Hp1 & Hg1).
  simpl in Hp1.
  pose proof (gained_len _ _ _ Hg1) as Hl1.
  set (shift_audio := slice_from p1 (Z.quot blocksize 2)).
  assert (Hshift : shift_audio = drop (Z.to_nat (Z.quot blocksize 2)) p1)
    by (apply slice_from_nonneg; lia).
  destruct (refined_phase_within meter t g channels blocksize fadesize
              shift_audio [] kept Hg HB HF) as (p2 & kept2 & Hp2 & Hg2).
  { unfold shift_audio. rewrite slice_from_len; lia. }
  { apply slice_from_shape. by apply (gained_shape _ _ _ _ Hg1). }
  simpl in Hp2.
  eexists. unfold DynAdapt4.stitch. rewrite Hp1, bind_ok. fold shift_audio.
  rewrite Hp2, bind_ok. split; [done|].
  rewrite slice_to_nonneg by lia.
  rewrite <- (take_drop (Z.to_nat (Z.quot blocksize 2)) audio) at 1.
  apply gained_app.
  - apply gained_take. eapply gained_impl; [|exact Hg1].
    intros k. by apply within_db_widen.
  - rewrite Hshift in Hg2.
    eapply gained_impl; [|exact (gained_trans _ _ _ _ _ (gained_drop _ _ _ _ Hg1) Hg2)].
    intros k (k1 & k2 & H1 & H2 & ->). by apply within_db_twice.
Qed.

Lemma dual_phase_length meter t g channels blocksize fadesize (audio : buffer) :
  (0 <= g)%R -> 0 < blocksize -> 0 <= fadesize < blocksize ->
  blocksize + Z.quot blocksize 2 <= len audio -> well_shaped channels audio ->
  exists out,
    DynAdapt4.stitch meter t (Num g) channels blocksize fadesize false audio = Ok out /\
    len out = len audio.
Proof.
  intros Hg HB HF HN Hs.
  destruct (dual_phase_gained meter t g channels blocksize fadesize audio)
    as (out & Ho & Hgd); try done.
  exists out. split; [done|]. apply (gained_len _ _ _ Hgd).
Qed.

(** X9: with phase 2 enabled, on a buffer of at least one and a half
    blocks, the stitched buffer has as many frames as the input and every
    sample is the input sample times a factor between
    [10^(-2 max_gain/20)] and [10^(2 max_gain/20)]: the two passes
    together may move a sample by twice the maximum gain, not more. *)
Theorem dual_phase_within_twice_max_gain (meter : buffer -> xreal)
  (final_loudness max_gain : R) (channels blocksize fadesize : Z) (audio : buffer) :
  (0 <= max_gain)%R -> 0 < blocksize -> 0 <= fadesize < blocksize ->
  blocksize + Z.quot blocksize 2 <= len audio -> well_shaped channels audio ->
  exists out,
    DynAdapt4.stitch meter final_loudness (Num max_gain) channels blocksize fadesize false audio
      = Ok out /\
    len out = len audio /\
    forall i c x, sample audio i c = Some x ->
      exists k, (Rpower 10 (- (2 * max_gain) / 20) <= k <= Rpower 10 (2 * max_gain / 20))%R /\
                sample out i c = Some (k * x)%R.
Proof.
  intros Hg HB HF HN Hs.
  destruct (dual_phase_gained meter final_loudness max_gain channels blocksize fadesize audio)
    as (out & Ho & Hgd); try done.
  exists out. split; [done|].
  split; [by apply (gained_len _ _ _ Hgd)|].
  intros i c x Hx. apply (gained_sample _ _ _ _ _ _ Hgd Hx).
Qed.

(** X10: with phase 2 enabled, on a buffer of at least one block but
    less than one and a half, phase 2 has no block and appends the block
    phase 1 left behind: the stitched buffer is the first half block of
    phase 1's output followed by the whole of phase 1's output,
    [blocksize/2] frames longer than the input. *)
Theorem short_second_phase_repeats_first (meter : buffer -> xreal)
  (final_loudness max_gain : R) (channels blocksize fadesize : Z) (audio : buffer) :
  0 <= fadesize ->
  blocksize <= len audio < blocksize + Z.quot blocksize 2 ->
  exists phase1,
    DynAdapt4.run_phase meter final_loudness (Num max_gain) channels blocksize fadesize audio
      = Ok phase1 /\
    len phase1 = len audio /\
    DynAdapt4.stitch meter final_loudness (Num max_gain) channels blocksize fadesize false audio
      = Ok (slice_to phase1 (Z.quot blocksize 2) ++ phase1) /\
    len (slice_to phase1 (Z.quot blocksize 2) ++ phase1) = len audio + Z.quot blocksize 2.
Proof.
  intros HF HN.
  assert (HB : 0 < blocksize).
  { destruct (Z.lt_ge_cases 0 blocksize) as [|Hneg]; [done|].
    pose proof (len_nonneg audio).
    assert (Z.quot blocksize 2 <= 0) by (apply Z.quot_le_upper_bound; lia).
    lia. }
  assert (Hh : 0 <= Z.quot blocksize 2 /\ 2 * Z.quot blocksize 2 <= blocksize).
  { rewrite Z.quot_div_nonneg by lia. split; [apply Z.div_pos; lia|].
    apply Z.mul_div_le. lia. }
  assert (Hq : Z.quot (len audio) blocksize = 1).
  { rewrite Z.quot_div_nonneg by lia. symmetry. apply Z.div_unique with (len audio - blocksize).
    - left. lia.
    - lia. }
  destruct (correct_scales final_loudness max_gain (meter audio) audio) as (a & _ & Hc).
  set (p1 := scale (linear_gain a) audio).
  assert (Hl : len p1 = len audio) by apply scale_len.
  exists p1. unfold DynAdapt4.run_phase, DynAdapt4.stitch.
  rewrite phase_single_block by done. rewrite Hc, !bind_ok. simpl. fold p1.
  split; [done|]. split; [done|].
  assert (Hq2 : Z.quot (len (slice_from p1 (Z.quot blocksize 2))) blocksize = 0).
  { apply Z.quot_small. rewrite slice_from_len by lia. lia. }
  unfold DynAdapt4.phase, int_div.
  replace (blocksize =? 0) with false by (symmetry; apply Z.eqb_neq; lia).
  rewrite bind_ok, Hq2. simpl. split; [done|].
  rewrite len_app, slice_to_nonneg by lia. unfold len in *.
  rewrite length_take. lia.
Qed.

End pass_theorems.

(** ** Configuration, windows and the correction *)

Section config_theorems.
Local Open Scope Z_scope.

(** X1: whatever the command line gives, the refined variant runs with
    an even division (the given one, or one more) and a negative target
    loudness.  Its crossfade ratio is strictly between 0 and 1, except
    that [-x nan] passes the test [xfade <= 0 or xfade >= 1] and stays
    [nan].  Its maximum gain is a number that is not negative, except
    that [-m inf] and [-m -inf] give [inf] and [-m nan] gives [nan]. *)
Theorem validated_config (a : DynAdapt4.args) :
  Z.even (DynAdapt4.effective_division a) = true /\
  DynAdapt4.division a <= DynAdapt4.effective_division a <= DynAdapt4.division a + 1 /\
  DynAdapt4.final_loudness a < 0 /\
  match DynAdapt4.crossfade a with
  | NaN => DynAdapt4.xfade a = NaN
  | _ => exists x, DynAdapt4.xfade a = Num x /\ (0 < x)%Q /\ (x < 1)%Q
  end /\
  match DynAdapt4.maxgain a with
  | Num g => DynAdapt4.max_gain a = Num (Rabs g) /\ (0 <= Rabs g)%R
  | Inf _ => DynAdapt4.max_gain a = Inf false
  | NaN => DynAdapt4.max_gain a = NaN
  end.
Proof.
  split; [|split; [|split; [|split]]].
  - unfold DynAdapt4.effective_division.
    pose proof (Zmod_even (DynAdapt4.division a)) as H.
    destruct (Z.eqb_spec (DynAdapt4.division a mod 2) 0) as [E|E].
    + destruct (Z.even (DynAdapt4.division a)); [done|lia].
    + rewrite Z.even_add. destruct (Z.even (DynAdapt4.division a)); [lia|done].
  - unfold DynAdapt4.effective_division.
    destruct (DynAdapt4.division a mod 2 =? 0); lia.
  - unfold DynAdapt4.final_loudness, DynAdapt4.default_loudness.
    destruct (Z.leb_spec 0 (DynAdapt4.loudness a)); lia.
  - apply xfade_cases.
  - unfold DynAdapt4.max_gain.
    destruct (DynAdapt4.maxgain a) as [g| |]; simpl; [|done|done].
    split; [done|apply Rabs_pos].
Qed.

(** X2: an even division, a crossfade ratio strictly between 0 and 1
    and a negative target loudness are used as given. *)
Theorem valid_args_unchanged (a : DynAdapt4.args) (x : Q) :
  Z.even (DynAdapt4.division a) = true ->
  DynAdapt4.crossfade a = Num x -> (0 < x)%Q -> (x < 1)%Q ->
  DynAdapt4.loudness a < 0 ->
  DynAdapt4.effective_division a = DynAdapt4.division a /\
  DynAdapt4.xfade a = DynAdapt4.crossfade a /\
  DynAdapt4.final_loudness a = DynAdapt4.loudness a.
Proof.
  intros Hd Hx H0 H1 Hl. split; [|split].
  - unfold DynAdapt4.effective_division. rewrite Zmod_even, Hd. done.
  - unfold DynAdapt4.xfade. rewrite Hx. simpl.
    destruct (Qle_bool x 0) eqn:E0.
    { apply Qle_bool_iff in E0. exfalso. by apply (Qlt_not_le _ _ H0). }
    destruct (Qle_bool 1 x) eqn:E1; [|done].
    apply Qle_bool_iff in E1. exfalso. by apply (Qlt_not_le _ _ H1).
  - unfold DynAdapt4.final_loudness.
    destruct (Z.leb_spec 0 (DynAdapt4.loudness a)); [lia|done].
Qed.

Lemma valid_args_unchanged_witness :
  let a := DynAdapt4.Args "in.wav" 8 (-16) (Num 2%R) false (Num (6 # 10)%Q) in
  DynAdapt4.effective_division a = 8 /\
  DynAdapt4.xfade a = Num (6 # 10)%Q /\
  DynAdapt4.final_loudness a = -16.
Proof.
  intros a. apply (valid_args_unchanged a (6 # 10)%Q); reflexivity.
Defined.

(** X3: the crossfade length [fadesize = int(blocksize * xfade)].  For a
    positive block size that a [float64] can hold (below
    [2^1024 - 2^970], where the conversion of the [int] starts to raise)
    and any crossfade ratio asked for other than [nan], it exists and
    satisfies [0 <= fadesize < blocksize]: the crossfade is shorter than
    a block.  With [-x nan] the ratio stays [nan] and the conversion
    raises [ValueError]. *)
Theorem crossfade_shorter_than_block (a : DynAdapt4.args) (samplerate : Z) :
  0 < DynAdapt4.blocksize a samplerate < 2 ^ 1024 - 2 ^ 970 ->
  match DynAdapt4.crossfade a with
  | NaN => DynAdapt4.fadesize a samplerate = Stop ValueError
  | _ => exists fadesize,
           DynAdapt4.fadesize a samplerate = Ok fadesize /\
           0 <= fadesize < DynAdapt4.blocksize a samplerate
  end.
Proof.
  intros [H _].
  destruct (DynAdapt4.crossfade a) as [x|n|] eqn:E.
  - apply fadesize_bounds; [by rewrite E|done].
  - apply fadesize_bounds; [by rewrite E|done].
  - by apply fadesize_nan.
Qed.

(** An out-of-range ratio of 3.5, an infinite one and [nan], for blocks
    of 8 s at 48 kHz. *)
Lemma crossfade_shorter_than_block_witness :
  let a := DynAdapt4.Args "in.wav" 8 (-16) (Num 2%R) false (Num (7 # 2)%Q) in
  let b := DynAdapt4.Args "in.wav" 8 (-16) (Num 2%R) false (Inf false) in
  let c := DynAdapt4.Args "in.wav" 8 (-16) (Num 2%R) false NaN in
  0 < DynAdapt4.blocksize a 48000 < 2 ^ 1024 - 2 ^ 970 /\
  DynAdapt4.fadesize a 48000 = Ok 230400 /\
  (exists fadesize, DynAdapt4.fadesize a 48000 = Ok fadesize /\
                    0 <= fadesize < DynAdapt4.blocksize a 48000) /\
  (exists fadesize, DynAdapt4.fadesize b 48000 = Ok fadesize /\
                    0 <= fadesize < DynAdapt4.blocksize b 48000) /\
  DynAdapt4.fadesize c 48000 = Stop ValueError.
Proof.
  intros a b c.
  assert (H : 0 < 384000 < 2 ^ 1024 - 2 ^ 970) by (vm_compute; split; reflexivity).
  split; [exact H|]. split; [reflexivity|]. split; [|split].
  - exact (crossfade_shorter_than_block a 48000 H).
  - exact (crossfade_shorter_than_block b 48000 H).
  - exact (crossfade_shorter_than_block c 48000 H).
Defined.

(** X5: in a buffer of at least one block every window lies inside the
    buffer and is not empty; the first starts at 0, every later one
    starts [fadesize] samples before the one before it stops; a window
    that is not the last stops at the end of its block, the last one at
    the end of the buffer. *)
Theorem window_bounds_and_overlap (samples blocksize fadesize idx : Z) :
  0 < blocksize -> 0 <= fadesize < blocksize -> blocksize <= samples ->
  0 <= idx < Z.quot samples blocksize ->
  let block_count := Z.quot samples blocksize in
  let w := block_window blocksize fadesize block_count idx in
  0 <= w_start w < window_stop samples w /\
  window_stop samples w <= samples /\
  (idx = 0 -> w_start w = 0) /\
  (0 < idx ->
   w_start w
   = window_stop samples (block_window blocksize fadesize block_count (idx - 1)) - fadesize) /\
  (idx < block_count - 1 -> window_stop samples w = (idx + 1) * blocksize) /\
  (idx = block_count - 1 -> window_stop samples w = samples).
Proof.
  intros HB HF HN Hidx block_count w.
  assert (Hc : block_count * blocksize <= samples).
  { unfold block_count. rewrite Z.quot_div_nonneg by lia.
    rewrite Z.mul_comm. apply Z.mul_div_le. lia. }
  assert (Hidx' : 0 <= idx < block_count) by exact Hidx.
  clearbody block_count. clear Hidx.
  assert (Hprev : 0 < idx ->
    window_stop samples (block_window blocksize fadesize block_count (idx - 1))
    = idx * blocksize).
  { intros H0. destruct (decide (idx - 1 = 0)) as [E|E].
    - assert (idx = 1) as -> by lia. change (1 - 1) with 0.
      rewrite block_window_first by lia. unfold window_stop. cbn [w_stop].
      destruct (Z.eqb_spec 0 (block_count - 1)); [lia|]. lia.
    - rewrite block_window_later by nia. unfold window_stop. cbn [w_stop].
      destruct (Z.eqb_spec (idx - 1) (block_count - 1)); [lia|]. lia. }
  destruct (decide (idx = 0)) as [->|Hne].
  - unfold w. rewrite block_window_first by lia. unfold window_stop.
    cbn [w_stop w_start].
    destruct (Z.eqb_spec 0 (block_count - 1)); repeat split; try lia; nia.
  - unfold w. rewrite Hprev by lia. rewrite block_window_later by nia.
    unfold window_stop. cbn [w_stop w_start].
    destruct (Z.eqb_spec idx (block_count - 1)); repeat split; try lia; nia.
Qed.

Lemma window_bounds_and_overlap_witness :
  let w := block_window 4 2 (Z.quot 10 4) 1 in
  0 <= w_start w < window_stop 10 w /\ window_stop 10 w <= 10.
Proof.
  intros w. destruct (window_bounds_and_overlap 10 4 2 1) as (H1 & H2 & _).
  - lia.
  - lia.
  - lia.
  - vm_compute. split; discriminate || reflexivity.
  - split; [exact H1|exact H2].
Defined.

End config_theorems.

Section gain_theorems.
Local Open Scope R_scope.

(** X4: whatever the meter reads, [-inf] and [+inf] included, the
    refined correction succeeds with a finite gain between [-max_gain]
    and [+max_gain] dB. *)
Theorem correction_never_fails (t g : R) (l : xreal) (sub_audio : buffer) :
  0 <= g ->
  exists a,
    DynAdapt4.applied_gain t (Num g) l = Fin a /\ - g <= a <= g /\
    DynAdapt4.correct t (Num g) l sub_audio = Ok (scale (Rpower 10 (a / 20)) sub_audio).
Proof.
  intros Hg. destruct (correct_scales t g l sub_audio) as (a & Ha & Hc).
  exists a. split; [done|]. split; [|done]. by apply applied_gain_bounded in Ha.
Qed.

Lemma correction_never_fails_witness :
  0 <= 2 /\
  exists a, DynAdapt4.applied_gain (-16) (Num 2%R) PosInf = Fin a /\ - 2 <= a <= 2.
Proof.
  split; [lra|].
  destruct (correction_never_fails (-16) 2 PosInf []) as (a & H1 & H2 & _); [lra|].
  by exists a.
Defined.

End gain_theorems.

(** ** Runs at the edges *)

Section edge_runs.
Local Open Scope Z_scope.

Lemma slice_from_nil {A} i : slice_from (@nil A) i = [].
Proof. unfold slice_from. apply drop_nil. Qed.

Lemma slice_to_nil {A} i : slice_to (@nil A) i = [].
Proof. unfold slice_to. apply take_nil. Qed.

Lemma phase_no_block meter t g channels blocksize fadesize (audio : buffer) st :
  blocksize <> 0 -> Z.quot (len audio) blocksize <= 0 ->
  DynAdapt4.phase meter t (Num g) channels blocksize fadesize audio st
  = Ok (st.1 ++ st.2, st.2).
Proof.
  intros HB Hq. unfold DynAdapt4.phase, int_div.
  replace (blocksize =? 0) with false by (symmetry; apply Z.eqb_neq; lia).
  rewrite bind_ok, range_nonpos by done. by destruct st.
Qed.

Lemma quot_negative_block (n blocksize : Z) : 0 <= n -> blocksize < 0 -> Z.quot n blocksize <= 0.
Proof.
  intros Hn HB. replace blocksize with (- - blocksize) by lia.
  rewrite Z.quot_opp_r by lia.
  assert (0 <= Z.quot n (- blocksize)) by (apply Z.quot_pos; lia). lia.
Qed.

(** X12: with a negative block size (a negative even [-d]) the loops
    have no block to visit and the stitched buffer is empty, with or
    without phase 2. *)
Theorem negative_division_stitches_nothing (meter : buffer -> xreal)
  (final_loudness max_gain : R) (channels blocksize fadesize : Z) (nophase2 : bool)
  (audio : buffer) :
  blocksize < 0 ->
  DynAdapt4.stitch meter final_loudness (Num max_gain) channels blocksize fadesize nophase2 audio
    = Ok [].
Proof.
  intros HB. unfold DynAdapt4.stitch.
  rewrite phase_no_block;
    [|lia|apply quot_negative_block; [apply len_nonneg|lia]].
  rewrite bind_ok. simpl. destruct nophase2; [done|].
  rewrite slice_from_nil, slice_to_nil.
  rewrite phase_no_block; [done|lia|].
  apply quot_negative_block; [apply len_nonneg|lia].
Qed.

Lemma negative_division_stitches_nothing_witness :
  DynAdapt4.stitch peak_meter (-16) (Num 2%R) 2 (-2) (-2) false [[1; 1]; [1; 1]; [1; 1]]%R = Ok [].
Proof. apply negative_division_stitches_nothing. lia. Defined.

(** X13: for an existing input of at most two channels, [-d 0], [-d -1]
    (rounded up to 0) or a sample rate of 0 make the block size 0, and
    the run ends in [ZeroDivisionError] at [samples / blocksize]: nothing
    is written.  (With [-x nan] it ends before that, in the [ValueError]
    of [int(blocksize * xfade)].) *)
Theorem zero_division_fails (meter : buffer -> xreal) (fs : string -> option sound_file)
  (a : DynAdapt4.args) (f : sound_file) :
  fs (DynAdapt4.input a) = Some f -> sf_channels f <= 2 ->
  DynAdapt4.division a = 0 \/ DynAdapt4.division a = -1 \/ sf_samplerate f = 0 ->
  DynAdapt4.main meter fs a
  = Failed match DynAdapt4.crossfade a with
           | NaN => ValueError
           | _ => ZeroDivisionError
           end.
Proof.
  intros Hf Hch Hz. unfold DynAdapt4.main. rewrite Hf.
  unfold channel_check, shape. cbn [length len]. simpl.
  replace (2 <? sf_channels f) with false by (symmetry; apply Z.ltb_ge; lia).
  assert (HB : DynAdapt4.blocksize a (sf_samplerate f) = 0).
  { unfold DynAdapt4.blocksize, DynAdapt4.effective_division.
    destruct Hz as [-> | [-> | ->]]; [done|done|lia]. }
  pose proof (xfade_cases a) as Hx.
  unfold DynAdapt4.stitched, DynAdapt4.fadesize. rewrite HB.
  destruct (DynAdapt4.crossfade a) as [x|n|].
  - destruct Hx as (r & -> & _). simpl.
    unfold DynAdapt4.stitch, DynAdapt4.phase, int_div. done.
  - destruct Hx as (r & -> & _). simpl.
    unfold DynAdapt4.stitch, DynAdapt4.phase, int_div. done.
  - rewrite Hx. done.
Qed.

Lemma zero_division_fails_witness :
  DynAdapt4.main peak_meter (fun _ => Some (SoundFile 48000 2 [[1; 1]]%R))
    (DynAdapt4.Args "in.wav" (-1) (-16) (Num 2%R) false (Num (6 # 10)%Q))
  = Failed ZeroDivisionError.
Proof.
  refine (zero_division_fails peak_meter _
            (DynAdapt4.Args "in.wav" (-1) (-16) (Num 2%R) false (Num (6 # 10)%Q))
            (SoundFile 48000 2 [[1; 1]]%R) _ _ _).
  - reflexivity.
  - simpl. lia.
  - right. left. reflexivity.
Defined.

(** X14: the same in the simple variant for [div:0]. *)
Theorem zero_division_fails_simple (meter : buffer -> xreal)
  (fs : string -> option sound_file) (s : DynAdapt2.settings) (f : sound_file) :
  fs (DynAdapt2.input s) = Some f -> sf_channels f <= 2 ->
  DynAdapt2.division s = 0 \/ sf_samplerate f = 0 ->
  DynAdapt2.main meter fs s = Failed ZeroDivisionError.
Proof.
  intros Hf Hch Hz. unfold DynAdapt2.main. rewrite Hf.
  unfold channel_check, shape. cbn [length len]. simpl.
  replace (2 <? sf_channels f) with false by (symmetry; apply Z.ltb_ge; lia).
  assert (HB : DynAdapt2.blocksize s (sf_samplerate f) = 0).
  { unfold DynAdapt2.blocksize. destruct Hz as [-> | ->]; lia. }
  unfold DynAdapt2.stitched, DynAdapt2.stitch, int_div.
  rewrite HB. done.
Qed.

Lemma zero_division_fails_simple_witness :
  DynAdapt2.main peak_meter (fun _ => Some (SoundFile 48000 2 [[1; 1]]%R))
    (DynAdapt2.Settings "in.wav" 0 (-23))
  = Failed ZeroDivisionError.
Proof.
  apply (zero_division_fails_simple _ _ _ (SoundFile 48000 2 [[1; 1]]%R)).
  - reflexivity.
  - simpl. lia.
  - left. reflexivity.
Defined.

(** X11: with a positive block size, a crossfade shorter than a block
    and a rectangular input, the stitching of the refined variant never
    stops on a fault, whatever the meter reads and however short the
    buffer: every index of the crossfade is in range. *)
Theorem stitch_never_raises (meter : buffer -> xreal) (final_loudness max_gain : R)
  (channels blocksize fadesize : Z) (nophase2 : bool) (audio : buffer) :
  (0 <= max_gain)%R -> 0 < blocksize -> 0 <= fadesize < blocksize ->
  well_shaped channels audio ->
  exists out,
    DynAdapt4.stitch meter final_loudness (Num max_gain) channels blocksize fadesize nophase2 audio
    = Ok out.
Proof.
  intros Hg HB HF Hs.
  assert (Hh : 0 <= Z.quot blocksize 2) by (apply Z.quot_pos; lia).
  destruct (Z.lt_ge_cases (len audio) blocksize) as [Hshort|Hlong].
  - unfold DynAdapt4.stitch.
    pose proof (len_nonneg audio).
    rewrite phase_no_block; [|lia|rewrite Z.quot_small; lia].
    rewrite bind_ok. simpl. destruct nophase2; [by eexists|].
    rewrite slice_from_nil, slice_to_nil.
    rewrite phase_no_block; [by eexists|lia|].
    rewrite Z.quot_small; [lia|]. unfold len. simpl. lia.
  - destruct (refined_phase_within meter final_loudness max_gain channels blocksize fadesize
                audio [] [] Hg HB HF Hlong Hs) as (p1 & kept & Hp1 & Hg1).
    simpl in Hp1. unfold DynAdapt4.stitch. rewrite Hp1, bind_ok.
    destruct nophase2; [by eexists|].
    set (shift_audio := slice_from p1 (Z.quot blocksize 2)).
    destruct (Z.lt_ge_cases (len shift_audio) blocksize) as [Hs2|Hl2].
    + rewrite phase_no_block; [by eexists|lia|].
      rewrite Z.quot_small; [lia|]. split; [apply len_nonneg|done].
    + destruct (refined_phase_within meter final_loudness max_gain channels blocksize
                  fadesize shift_audio [] kept Hg HB HF Hl2) as (p2 & kept2 & Hp2 & _).
      { apply slice_from_shape. by apply (gained_shape _ _ _ _ Hg1). }
      rewrite Hp2. by eexists.
Qed.

Lemma stitch_never_raises_witness :
  exists out,
    DynAdapt4.stitch peak_meter (-16) (Num 2%R) 2 2 1 false [[1; 1]; [1; 1]]%R = Ok out.
Proof.
  apply stitch_never_raises; [lra|lia|lia|repeat constructor].
Defined.

End edge_runs.

(** ** Whole runs *)

Section main_theorems.
Local Open Scope Z_scope.

Lemma channel_check_shape (f : sound_file) :
  channel_check (shape f) =
  if 2 <? sf_channels f then inl "Only stereo audio is currently supported"%string
  else inr (sf_channels f).
Proof. done. Qed.

(** X15: once it has its settings, a run exits with a message in exactly
    two cases, the input file does not exist or it has more than two
    channels, each with its own message; the mono message is never the
    reason of an exit.  (The simple variant has one more exit before
    that, the usage message of [parse_argv].) *)
Theorem main_exit_messages (meter : buffer -> xreal) (fs : string -> option sound_file)
  (a : DynAdapt4.args) (s : DynAdapt2.settings) (message : string) :
  (DynAdapt4.main meter fs a = Exited message <->
   (fs (DynAdapt4.input a) = None /\
    message = (DynAdapt4.input a ++ " doesn't appear to exist" ++ String "010"%char "")%string) \/
   (exists f, fs (DynAdapt4.input a) = Some f /\ 2 < sf_channels f /\
              message = "Only stereo audio is currently supported"%string)) /\
  (DynAdapt2.main meter fs s = Exited message <->
   (fs (DynAdapt2.input s) = None /\
    message = (DynAdapt2.input s ++ " doesn't appear to exist" ++ String "010"%char "")%string) \/
   (exists f, fs (DynAdapt2.input s) = Some f /\ 2 < sf_channels f /\
              message = "Only stereo audio is currently supported"%string)).
Proof.
  split.
  - unfold DynAdapt4.main. destruct (fs (DynAdapt4.input a)) as [f|] eqn:Hf.
    + rewrite channel_check_shape. destruct (Z.ltb_spec 2 (sf_channels f)) as [Hc|Hc].
      * split.
        -- intros [= <-]. right. by exists f.
        -- intros [[? _]|(f' & _ & _ & ->)]; done.
      * split.
        -- by destruct (DynAdapt4.stitched _ _ _ _ _ ≫= _).
        -- intros [[? _]|(f' & [= <-] & ? & _)]; [done|lia].
    + split.
      * intros [= <-]. by left.
      * intros [[_ ->]|(f' & ? & _)]; done.
  - unfold DynAdapt2.main. destruct (fs (DynAdapt2.input s)) as [f|] eqn:Hf.
    + rewrite channel_check_shape. destruct (Z.ltb_spec 2 (sf_channels f)) as [Hc|Hc].
      * split.
        -- intros [= <-]. right. by exists f.
        -- intros [[? _]|(f' & _ & _ & ->)]; done.
      * split.
        -- by destruct (DynAdapt2.stitched _ _ _ _ _ ≫= _).
        -- intros [[? _]|(f' & [= <-] & ? & _)]; [done|lia].
    + split.
      * intros [= <-]. by left.
      * intros [[_ ->]|(f' & ? & _)]; done.
Qed.

(** X16: for an existing, rectangular input of at most two channels and
    at least one and a half blocks, a crossfade ratio that is not [nan]
    and a finite maximum gain, when the meter does not read the stitched
    buffer as [-inf], the refined variant writes a file: under the name
    [new_name] gives, at the sample rate of the input, and with exactly
    as many frames as the input. *)
Theorem main_writes_whole_file (meter : buffer -> xreal) (fs : string -> option sound_file)
  (a : DynAdapt4.args) (f : sound_file) (g : R) :
  fs (DynAdapt4.input a) = Some f ->
  sf_channels f <= 2 ->
  well_shaped (sf_channels f) (sf_frames f) ->
  DynAdapt4.crossfade a <> NaN ->
  DynAdapt4.maxgain a = Num g ->
  0 < DynAdapt4.blocksize a (sf_samplerate f) ->
  DynAdapt4.blocksize a (sf_samplerate f)
    + Z.quot (DynAdapt4.blocksize a (sf_samplerate f)) 2 <= len (sf_frames f) ->
  (forall stitched,
     DynAdapt4.stitched meter a (sf_samplerate f) (sf_channels f) (sf_frames f) = Ok stitched ->
     meter stitched <> NegInf) ->
  exists stitched out,
    DynAdapt4.stitched meter a (sf_samplerate f) (sf_channels f) (sf_frames f) = Ok stitched /\
    final_normalize meter (IZR (DynAdapt4.final_loudness a)) stitched = Ok out /\
    DynAdapt4.main meter fs a
      = Written (new_name (DynAdapt4.input a)) out (sf_samplerate f) /\
    len out = len (sf_frames f).
Proof.
  intros Hf Hch Hs Hx Hmg HB HN Hm.
  assert (Hh : 0 <= Z.quot (DynAdapt4.blocksize a (sf_samplerate f)) 2)
    by (apply Z.quot_pos; lia).
  destruct (fadesize_bounds a (sf_samplerate f) Hx HB) as (fadesize & Hfz & HF).
  assert (Hmax : DynAdapt4.max_gain a = Num (Rabs g)).
  { unfold DynAdapt4.max_gain. by rewrite Hmg. }
  assert (Hg : (0 <= Rabs g)%R) by apply Rabs_pos.
  assert (Hst : exists stitched,
    DynAdapt4.stitched meter a (sf_samplerate f) (sf_channels f) (sf_frames f) = Ok stitched /\
    len stitched = len (sf_frames f)).
  { unfold DynAdapt4.stitched. rewrite Hfz, bind_ok, Hmax. destruct (DynAdapt4.nophase2 a).
    - destruct (refined_phase_within meter (IZR (DynAdapt4.final_loudness a))
                  (Rabs g) (sf_channels f)
                  (DynAdapt4.blocksize a (sf_samplerate f))
                  fadesize (sf_frames f) [] [])
        as (p1 & kept & Hp1 & Hg1); [done|done|done|lia|done|].
      simpl in Hp1. exists p1. unfold DynAdapt4.stitch. rewrite Hp1.
      split; [done|]. apply (gained_len _ _ _ Hg1).
    - destruct (dual_phase_length meter (IZR (DynAdapt4.final_loudness a))
                  (Rabs g) (sf_channels f)
                  (DynAdapt4.blocksize a (sf_samplerate f))
                  fadesize (sf_frames f))
        as (out & Ho & Hl); try done. by exists out. }
  destruct Hst as (stitched & Hst & Hl).
  assert (Hfin : exists m, final_normalize meter (IZR (DynAdapt4.final_loudness a)) stitched
                           = Ok (scale (linear_gain m) stitched) \/
                           final_normalize meter (IZR (DynAdapt4.final_loudness a)) stitched
                           = Ok (scale 0 stitched)).
  { unfold final_normalize, normalize_loudness, delta_loudness.
    pose proof (Hm stitched Hst) as Hne.
    destruct (meter stitched) as [|m|]; [done| |]; simpl.
    - eexists. by left.
    - exists 0%R. by right. }
  destruct Hfin as (m & Hfin).
  exists stitched.
  assert (Hout : exists out,
    final_normalize meter (IZR (DynAdapt4.final_loudness a)) stitched = Ok out /\
    len out = len stitched).
  { destruct Hfin as [H|H]; eexists; (split; [exact H|apply scale_len]). }
  destruct Hout as (out & Ho & Hlo). exists out.
  split; [done|]. split; [done|]. split; [|lia].
  unfold DynAdapt4.main. rewrite Hf, channel_check_shape.
  replace (2 <? sf_channels f) with false by (symmetry; apply Z.ltb_ge; lia).
  rewrite Hst, bind_ok. unfold final_normalize in Ho. by rewrite Ho.
Qed.

End main_theorems.

(** ** Final normalisation, peak report and output name *)

Section final_theorems.
Local Open Scope R_scope.

(** X17: when the meter follows a gain (a buffer scaled by [k > 0]
    reads [20 log10 k] dB higher), the final normalisation scales the
    buffer by [10^((target - measured)/20)] and the result measures
    exactly the target loudness. *)
Theorem final_normalize_reaches_target (meter : buffer -> xreal) (final_loudness m : R)
  (new_audio : buffer) :
  meter new_audio = Fin m ->
  (forall k, 0 < k -> meter (scale k new_audio) = Fin (m + 20 * log10 k)) ->
  exists out,
    final_normalize meter final_loudness new_audio = Ok out /\
    out = scale (Rpower 10 ((final_loudness - m) / 20)) new_audio /\
    meter out = Fin final_loudness.
Proof.
  intros Hm Hscale. unfold final_normalize, normalize_loudness, delta_loudness.
  rewrite Hm. simpl. eexists. split; [done|]. split; [done|].
  rewrite Hscale by apply linear_gain_pos.
  rewrite log10_linear_gain. f_equal. lra.
Qed.

Lemma peak_meter_scale_tone (k : R) :
  0 < k -> peak_meter (scale k [[1; 1]]) = Fin (0 + 20 * log10 k).
Proof.
  intros Hk. rewrite (peak_meter_uniform k); [f_equal; lra|done| |by repeat constructor].
  repeat constructor; rewrite Rmult_1_r; apply Rabs_pos_eq; lra.
Qed.

Lemma final_normalize_reaches_target_witness :
  exists out,
    final_normalize peak_meter (-16) [[1; 1]] = Ok out /\
    peak_meter out = Fin (-16).
Proof.
  destruct (final_normalize_reaches_target peak_meter (-16) 0 [[1; 1]])
    as (out & H1 & _ & H2).
  - rewrite (peak_meter_uniform 1);
      [|lra|repeat constructor; apply Rabs_R1|by repeat constructor].
    rewrite log10_1. f_equal. lra.
  - apply peak_meter_scale_tone.
  - by exists out.
Defined.

(** The peak report. *)

Lemma py_max_Rmax x y : py_max x y = Rmax x y.
Proof.
  unfold py_max, Rmax. destruct (Rgt_dec y x), (Rle_dec x y); lra.
Qed.

Lemma foldl_Rmin_spec (x : R) (xs : list R) :
  foldl Rmin x xs ∈ x :: xs /\ forall y, y ∈ x :: xs -> foldl Rmin x xs <= y.
Proof.
  revert x. induction xs as [|z xs IH]; intros x; simpl.
  - split; [left|]. intros y Hy. apply list_elem_of_singleton in Hy as ->. lra.
  - destruct (IH (Rmin x z)) as [Hin Hle]. split.
    + apply elem_of_cons in Hin as [Hm|Hin]; [|by do 2 right].
      rewrite Hm. unfold Rmin. destruct (Rle_dec x z); [left|right; left].
    + intros y Hy.
      assert (Hmin : Rmin x z <= x /\ Rmin x z <= z)
        by (split; [apply Rmin_l|apply Rmin_r]).
      pose proof (Hle (Rmin x z) ltac:(left)) as H0.
      apply elem_of_cons in Hy as [->|Hy]; [lra|].
      apply elem_of_cons in Hy as [->|Hy]; [lra|].
      apply Hle. by right.
Qed.

Lemma foldl_Rmax_spec (x : R) (xs : list R) :
  foldl Rmax x xs ∈ x :: xs /\ forall y, y ∈ x :: xs -> y <= foldl Rmax x xs.
Proof.
  revert x. induction xs as [|z xs IH]; intros x; simpl.
  - split; [left|]. intros y Hy. apply list_elem_of_singleton in Hy as ->. lra.
  - destruct (IH (Rmax x z)) as [Hin Hle]. split.
    + apply elem_of_cons in Hin as [Hm|Hin]; [|by do 2 right].
      rewrite Hm. unfold Rmax. destruct (Rle_dec x z); [right; left|left].
    + intros y Hy.
      assert (Hmax : x <= Rmax x z /\ z <= Rmax x z)
        by (split; [apply Rmax_l|apply Rmax_r]).
      pose proof (Hle (Rmax x z) ltac:(left)) as H0.
      apply elem_of_cons in Hy as [->|Hy]; [lra|].
      apply elem_of_cons in Hy as [->|Hy]; [lra|].
      apply Hle. by right.
Qed.

Lemma elem_of_concat_sample (a : buffer) (x : R) :
  x ∈ concat a <-> exists i c, sample a i c = Some x.
Proof.
  unfold sample. rewrite list_elem_of_In, in_concat. split.
  - intros (row & Hrow & Hx).
    apply list_elem_of_In, list_elem_of_lookup in Hrow as [i Hi].
    apply list_elem_of_In, list_elem_of_lookup in Hx as [c Hc].
    exists i, c. by rewrite Hi.
  - intros (i & c & H). destruct (a !! i) as [row|] eqn:Hi; [|done]. simpl in H.
    exists row. split; apply list_elem_of_In, list_elem_of_lookup; eauto.
Qed.

(** X18: [max(abs(min), max)] is the true sample peak, although only
    the minimum goes through [abs]: no sample exceeds it in magnitude and
    some sample attains it; it is undefined only for a buffer without
    samples. *)
Theorem peak_value_is_peak (new_audio : buffer) :
  match peak_value new_audio with
  | None => forall i c, sample new_audio i c = None
  | Some p =>
    (forall i c x, sample new_audio i c = Some x -> Rabs x <= p) /\
    (exists i c x, sample new_audio i c = Some x /\ Rabs x = p)
  end.
Proof.
  unfold peak_value, np_min, np_max.
  destruct (concat new_audio) as [|x0 xs] eqn:E; simpl.
  - intros i c. destruct (sample new_audio i c) as [x|] eqn:Hx; [|done].
    assert (Hin : x ∈ concat new_audio) by (apply elem_of_concat_sample; eauto).
    rewrite E in Hin. by apply elem_of_nil in Hin.
  - destruct (foldl_Rmin_spec x0 xs) as [Hlo_in Hlo].
    destruct (foldl_Rmax_spec x0 xs) as [Hhi_in Hhi].
    set (lo := foldl Rmin x0 xs) in *. set (hi := foldl Rmax x0 xs) in *.
    rewrite py_max_Rmax. rewrite <- E in Hlo_in, Hhi_in, Hlo, Hhi.
    assert (Hlh : lo <= hi) by (apply Hhi; done).
    split.
    + intros i c x Hx.
      assert (Hin : x ∈ concat new_audio) by (apply elem_of_concat_sample; eauto).
      pose proof (Hlo x Hin). pose proof (Hhi x Hin).
      pose proof (Rmax_l (Rabs lo) hi). pose proof (Rmax_r (Rabs lo) hi).
      pose proof (Rle_abs (- lo)). rewrite Rabs_Ropp in *.
      unfold Rabs at 1. destruct (Rcase_abs x); lra.
    + destruct (Rle_dec hi (Rabs lo)) as [Hc|Hc].
      * apply elem_of_concat_sample in Hlo_in as (i & c & Hs).
        exists i, c, lo. split; [done|]. by rewrite Rmax_left.
      * apply elem_of_concat_sample in Hhi_in as (i & c & Hs).
        exists i, c, hi. split; [done|]. rewrite Rmax_right by lra.
        pose proof (Rabs_pos lo). apply Rabs_pos_eq. lra.
Qed.

End final_theorems.

Section name_theorems.

(** X19: the output name is never the input name (the run cannot
    overwrite its input): it is 4 characters longer, or 8 characters long
    for an input name of fewer than 4. *)
Theorem new_name_never_the_input (filename : string) :
  new_name filename <> filename /\
  String.length (new_name filename) = (String.length filename - 4 + 8)%nat.
Proof.
  split; [|apply new_name_length].
  intros H. pose proof (new_name_length filename) as Hl. rewrite H in Hl. lia.
Qed.

(** X20: an input name of at most four characters is dropped whole:
    the output is [_new.wav]. *)
Theorem new_name_of_short_name (filename : string) :
  (String.length filename <= 4)%nat -> new_name filename = "_new.wav"%string.
Proof.
  intros H. unfold new_name, slice_to, clip_bound, len. simpl.
  rewrite list_ascii_length.
  replace (Z.to_nat _) with 0%nat by lia. done.
Qed.

Lemma new_name_of_short_name_witness :
  (String.length ".wav" <= 4)%nat /\ new_name ".wav" = "_new.wav"%string.
Proof. split; [simpl; lia|]. apply new_name_of_short_name. simpl. lia. Defined.

End name_theorems.

(** ** The passes of the simple variant *)

Section simple_pass.
Local Open Scope Z_scope.

Lemma range_split (i n : Z) :
  0 <= i < n -> exists rest, range n = range i ++ i :: rest.
Proof.
  intros H. unfold range.
  replace (Z.to_nat n) with (Z.to_nat i + S (Z.to_nat n - Z.to_nat i - 1))%nat by lia.
  rewrite seq_app, fmap_app. simpl. rewrite Z2Nat.id by lia. by eexists.
Qed.

Lemma for_each_stop {S} (xs : list Z) (body : Z -> S -> outcome S) x s f :
  body x s = Stop f -> for_each (x :: xs) body s = Stop f.
Proof. intros H. simpl. by rewrite H. Qed.

Lemma simple_corrects meter t w :
  meter w <> NegInf ->
  corrects (fun k => 0 <= k)%R (fun sub => normalize_loudness sub (meter sub) t) w.
Proof.
  intros H. unfold corrects, normalize_loudness, delta_loudness.
  destruct (meter w) as [|m|]; [done| |]; simpl.
  - exists (linear_gain (t - m)). split; [|done]. left. apply linear_gain_pos.
  - exists 0%R. split; [lra|done].
Qed.

Lemma nonneg_convex : convex (fun k => 0 <= k)%R.
Proof. intros k1 k2 w H1 H2 Hw. nra. Qed.

Variable meter : buffer -> xreal.
Variable final_loudness : R.
Variables (channels blocksize fadesize : Z).
Variable audio : buffer.

Hypothesis Hblock : 0 < blocksize.
Hypothesis Hfade : 0 <= fadesize < blocksize.
Hypothesis Hlong : blocksize <= len audio.
Hypothesis Hshape : well_shaped channels audio.

Local Abbreviation block_count := (Z.quot (len audio) blocksize).
Local Abbreviation win idx :=
  (take_window audio (block_window blocksize fadesize block_count idx)).
Local Abbreviation gstep :=
  (generic_step (fun sub => normalize_loudness sub (meter sub) final_loudness)
     channels blocksize fadesize audio block_count).

Lemma simple_loop_generic st :
  for_each (range block_count)
    (DynAdapt2.block_step meter final_loudness channels blocksize fadesize audio block_count) st
  = for_each (range block_count) gstep st.
Proof using Type. apply for_each_ext. intros. apply simple_step_generic. Qed.

Lemma simple_pass_gained :
  (forall idx, 0 <= idx < block_count -> meter (win idx) <> NegInf) ->
  exists out,
    DynAdapt2.stitch meter final_loudness channels blocksize fadesize audio = Ok out /\
    gained (fun k => 0 <= k)%R audio out.
Proof using Hblock Hfade Hlong Hshape.
  intros Hm. unfold DynAdapt2.stitch, int_div.
  replace (blocksize =? 0) with false by (symmetry; apply Z.eqb_neq; lia).
  rewrite bind_ok, simple_loop_generic.
  destruct (generic_pass (fun sub => normalize_loudness sub (meter sub) final_loudness)
              channels blocksize fadesize audio (fun k => 0 <= k)%R
              Hblock Hfade Hlong Hshape nonneg_convex [] [])
    as (out & kept & -> & Hg).
  { intros idx Hidx. apply simple_corrects. by apply Hm. }
  rewrite bind_ok. simpl. by exists (out ++ kept).
Qed.

Lemma first_silent (n : nat) :
  (exists idx, 0 <= idx < Z.of_nat n /\ meter (win idx) = NegInf) ->
  exists i, 0 <= i < Z.of_nat n /\ meter (win i) = NegInf /\
            forall j, 0 <= j < i -> meter (win j) <> NegInf.
Proof using Type.
  induction n as [|n IH]; intros (idx & Hidx & Hs); [lia|].
  assert (Hdec : (exists idx, 0 <= idx < Z.of_nat n /\ meter (win idx) = NegInf) \/
                 (forall j, 0 <= j < Z.of_nat n -> meter (win j) <> NegInf)).
  { clear. induction n as [|n IHn]; [right; intros; lia|].
    destruct IHn as [(i & Hi & Hs)|Hnone]; [left; exists i; split; [lia|done]|].
    destruct (meter (win (Z.of_nat n))) as [|m|] eqn:E.
    - left. exists (Z.of_nat n). split; [lia|done].
    - right. intros j Hj. destruct (decide (j = Z.of_nat n)) as [->|]; [by rewrite E|].
      apply Hnone. lia.
    - right. intros j Hj. destruct (decide (j = Z.of_nat n)) as [->|]; [by rewrite E|].
      apply Hnone. lia. }
  destruct Hdec as [Hex|Hnone].
  - destruct (IH Hex) as (i & Hi & Hsi & Hbefore). exists i. split; [lia|done].
  - exists idx. split; [done|]. split; [done|].
    intros j Hj. apply Hnone.
    destruct (decide (idx = Z.of_nat n)) as [->|]; [lia|].
    exfalso. apply (Hnone idx); [lia|done].
Qed.

Lemma simple_pass_stops :
  (exists idx, 0 <= idx < block_count /\ meter (win idx) = NegInf) ->
  DynAdapt2.stitch meter final_loudness channels blocksize fadesize audio = Stop NonFinite.
Proof using Hblock Hfade Hlong Hshape.
  intros Hex.
  destruct (block_count_bounds blocksize audio Hblock Hlong) as [Hc1 Hc2].
  destruct (first_silent (Z.to_nat block_count)) as (i & Hi & Hs & Hbefore).
  { destruct Hex as (idx & Hidx & H). exists idx. split; [lia|done]. }
  rewrite Z2Nat.id in Hi by lia.
  unfold DynAdapt2.stitch, int_div.
  replace (blocksize =? 0) with false by (symmetry; apply Z.eqb_neq; lia).
  rewrite bind_ok, simple_loop_generic.
  destruct (range_split i block_count Hi) as (rest & ->).
  rewrite for_each_app.
  assert (Hstep : forall st, gstep i st = Stop NonFinite).
  { intros [new_audio prev_audio]. unfold generic_step, normalize_loudness, delta_loudness.
    rewrite Hs. done. }
  destruct (decide (i = 0)) as [->|Hne].
  - rewrite (range_nonpos 0) by lia.
    change (for_each [] gstep ([], [])) with (Ok (@nil (list R), @nil (list R))).
    rewrite bind_ok, (for_each_stop _ _ _ _ NonFinite) by apply Hstep. done.
  - destruct (generic_loop (fun sub => normalize_loudness sub (meter sub) final_loudness)
                channels blocksize fadesize audio (fun k => 0 <= k)%R
                Hblock Hfade Hlong Hshape nonneg_convex (Z.to_nat i) [] [])
      as (out & kept & Hloop & _).
    { lia. }
    { intros idx Hidx. apply simple_corrects, Hbefore. lia. }
    rewrite Z2Nat.id in Hloop by lia. rewrite Hloop, bind_ok.
    rewrite (for_each_stop _ _ _ _ NonFinite) by apply Hstep. done.
Qed.

End simple_pass.

Section simple_theorems.
Local Open Scope Z_scope.

(** X21: in the simple variant, on a buffer of at least one block none
    of whose blocks reads [-inf], the stitched buffer has as many frames
    as the input, and every sample is the input sample times a factor
    that is not negative. *)
Theorem simple_pass_keeps_length (meter : buffer -> xreal) (final_loudness : R)
  (channels blocksize fadesize : Z) (audio : buffer) :
  0 < blocksize -> 0 <= fadesize < blocksize ->
  blocksize <= len audio -> well_shaped channels audio ->
  (forall idx, 0 <= idx < Z.quot (len audio) blocksize ->
     meter (take_window audio
              (block_window blocksize fadesize (Z.quot (len audio) blocksize) idx))
     <> NegInf) ->
  exists out,
    DynAdapt2.stitch meter final_loudness channels blocksize fadesize audio = Ok out /\
    len out = len audio /\
    forall i c x, sample audio i c = Some x ->
      exists k, (0 <= k)%R /\ sample out i c = Some (k * x)%R.
Proof.
  intros HB HF HN Hs Hm.
  destruct (simple_pass_gained meter final_loudness channels blocksize fadesize audio
              HB HF HN Hs Hm) as (out & Ho & Hg).
  exists out. split; [done|]. split; [apply (gained_len _ _ _ Hg)|].
  intros i c x Hx. apply (gained_sample _ _ _ _ _ _ Hg Hx).
Qed.

Lemma simple_pass_keeps_length_witness :
  exists out,
    DynAdapt2.stitch (fun _ => Fin (-20)) (-23) 2 2 1 [[1; 1]; [1; 1]; [1; 1]; [1; 1]]%R = Ok out /\
    len out = 4.
Proof.
  destruct (simple_pass_keeps_length (fun _ => Fin (-20)) (-23) 2 2 1
              [[1; 1]; [1; 1]; [1; 1]; [1; 1]]%R) as (out & H1 & H2 & _).
  - lia.
  - lia.
  - vm_compute. discriminate.
  - repeat constructor.
  - intros idx _. discriminate.
  - exists out. split; [exact H1|exact H2].
Defined.

(** X22: in the simple variant one block that reads [-inf] is enough to
    turn the run non-finite: the gain of that block is unbounded. *)
Theorem simple_pass_silent_block_fails (meter : buffer -> xreal) (final_loudness : R)
  (channels blocksize fadesize : Z) (audio : buffer) :
  0 < blocksize -> 0 <= fadesize < blocksize ->
  blocksize <= len audio -> well_shaped channels audio ->
  (exists idx, 0 <= idx < Z.quot (len audio) blocksize /\
     meter (take_window audio
              (block_window blocksize fadesize (Z.quot (len audio) blocksize) idx))
     = NegInf) ->
  DynAdapt2.stitch meter final_loudness channels blocksize fadesize audio = Stop NonFinite.
Proof. intros HB HF HN Hs. by apply simple_pass_stops. Qed.

Lemma simple_pass_silent_block_fails_witness :
  DynAdapt2.stitch (fun _ => NegInf) (-23) 2 2 1 [[0; 0]; [0; 0]; [0; 0]; [0; 0]]%R
  = Stop NonFinite.
Proof.
  apply simple_pass_silent_block_fails.
  - lia.
  - lia.
  - vm_compute. discriminate.
  - repeat constructor.
  - exists 1. split; [|reflexivity]. vm_compute. split; discriminate || reflexivity.
Defined.

End simple_theorems.

(** ** Concrete passes *)

Section pass_witnesses.
Local Open Scope Z_scope.

Lemma phase_pass_within_max_gain_witness :
  exists out,
    DynAdapt4.run_phase peak_meter (-16) (Num 2%R) 2 2 1 [[1; 1]; [1; 1]; [1; 1]]%R = Ok out /\
    len out = 3.
Proof.
  destruct (phase_pass_within_max_gain peak_meter (-16) 2 2 2 1 [[1; 1]; [1; 1]; [1; 1]]%R)
    as (out & H1 & H2 & _).
  - lra.
  - lia.
  - lia.
  - vm_compute. discriminate.
  - repeat constructor.
  - exists out. split; [exact H1|exact H2].
Defined.

Lemma phase_pass_uniform_gain_witness :
  DynAdapt4.run_phase (fun _ => Fin (-18)) (-16) (Num 2%R) 2 2 1 [[1; 1]; [1; 1]; [1; 1]; [1; 1]]%R
  = Ok (scale (Rpower 10 (2 / 20)) [[1; 1]; [1; 1]; [1; 1]; [1; 1]]%R).
Proof.
  apply phase_pass_uniform_gain.
  - lia.
  - lia.
  - vm_compute. discriminate.
  - repeat constructor.
  - intros idx _. rewrite applied_gain_fin.
    destruct (Rgt_dec (Rabs (-16 - -18)) 2); [destruct (Rgt_dec (-18) (-16))|];
      f_equal; lra.
Defined.

Lemma phase_pass_on_target_is_identity_witness :
  DynAdapt4.run_phase (fun _ => Fin (-16)) (-16) (Num 2%R) 2 2 1 [[1; 1]; [1; 1]; [1; 1]; [1; 1]]%R
  = Ok [[1; 1]; [1; 1]; [1; 1]; [1; 1]]%R.
Proof.
  apply phase_pass_on_target_is_identity.
  - lra.
  - lia.
  - lia.
  - vm_compute. discriminate.
  - repeat constructor.
  - intros idx _. reflexivity.
Defined.

Lemma dual_phase_within_twice_max_gain_witness :
  exists out,
    DynAdapt4.stitch peak_meter (-16) (Num 2%R) 2 2 1 false [[1; 1]; [1; 1]; [1; 1]]%R = Ok out /\
    len out = 3.
Proof.
  destruct (dual_phase_within_twice_max_gain peak_meter (-16) 2 2 2 1
              [[1; 1]; [1; 1]; [1; 1]]%R) as (out & H1 & H2 & _).
  - lra.
  - lia.
  - lia.
  - vm_compute. discriminate.
  - repeat constructor.
  - exists out. split; [exact H1|exact H2].
Defined.

Lemma short_second_phase_repeats_first_witness :
  exists phase1,
    DynAdapt4.run_phase peak_meter (-16) (Num 2%R) 2 2 1 [[1; 1]; [1; 1]]%R = Ok phase1 /\
    DynAdapt4.stitch peak_meter (-16) (Num 2%R) 2 2 1 false [[1; 1]; [1; 1]]%R
      = Ok (slice_to phase1 1 ++ phase1) /\
    len (slice_to phase1 1 ++ phase1) = 3.
Proof.
  destruct (short_second_phase_repeats_first peak_meter (-16) 2 2 2 1 [[1; 1]; [1; 1]]%R)
    as (phase1 & H1 & _ & H3 & H4).
  - lia.
  - vm_compute. split; [discriminate|reflexivity].
  - exists phase1. split; [exact H1|]. split; [exact H3|exact H4].
Defined.

Lemma main_writes_whole_file_witness :
  exists out,
    DynAdapt4.main (fun _ => Fin (-20))
      (fun _ => Some (SoundFile 1 2 [[1; 1]; [1; 1]; [1; 1]]%R))
      (DynAdapt4.Args "in.wav" 2 (-16) (Num 2%R) false (Num (6 # 10)%Q))
    = Written "in_new.wav" out 1 /\
    len out = 3.
Proof.
  destruct (main_writes_whole_file (fun _ => Fin (-20))
              (fun _ => Some (SoundFile 1 2 [[1; 1]; [1; 1]; [1; 1]]%R))
              (DynAdapt4.Args "in.wav" 2 (-16) (Num 2%R) false (Num (6 # 10)%Q))
              (SoundFile 1 2 [[1; 1]; [1; 1]; [1; 1]]%R) 2%R)
    as (stitched & out & _ & _ & H3 & H4).
  - reflexivity.
  - simpl. lia.
  - repeat constructor.
  - discriminate.
  - reflexivity.
  - reflexivity.
  - vm_compute. discriminate.
  - intros stitched _. discriminate.
  - exists out. split; [exact H3|exact H4].
Defined.

End pass_witnesses.

(** ** The command line of the simple variant *)

Section scan_facts.
Local Open Scope Z_scope.

Lemma leading_digits_digits s : Forall (fun c => is_digit c = true) (leading_digits s).
Proof.
  induction s as [|c s IH]; simpl; [constructor|].
  destruct (is_digit c) eqn:E; by constructor.
Qed.

Lemma leading_digits_all ds :
  Forall (fun c => is_digit c = true) ds -> leading_digits ds = ds.
Proof. induction 1 as [|c ds Hc _ IH]; simpl; [done|]. by rewrite Hc, IH. Qed.

Lemma search_digits literal s ds :
  search literal s = Some ds -> Forall (fun c => is_digit c = true) ds /\ ds <> [].
Proof.
  induction s as [|c s IH]; simpl.
  - unfold match_here. destruct (match_literal literal []) as [rest|]; simpl; [|done].
    pose proof (leading_digits_digits rest).
    destruct (leading_digits rest); [done|]. by intros [= <-].
  - unfold match_here. destruct (match_literal literal (c :: s)) as [rest|]; simpl; [|done].
    pose proof (leading_digits_digits rest).
    destruct (leading_digits rest); [done|]. by intros [= <-].
Qed.

Lemma digit_value c : is_digit c = true -> 0 <= Z.of_nat (nat_of_ascii c) - 48 <= 9.
Proof.
  unfold is_digit. intros H. apply andb_true_iff in H as [H1 H2].
  apply Nat.leb_le in H1, H2. lia.
Qed.

Lemma foldl_digits_nonneg ds acc :
  Forall (fun c => is_digit c = true) ds -> 0 <= acc ->
  0 <= foldl (fun acc c => 10 * acc + (Z.of_nat (nat_of_ascii c) - 48)) acc ds.
Proof.
  intros H. revert acc. induction H as [|c ds Hc _ IH]; intros acc Hacc; simpl; [done|].
  apply IH. pose proof (digit_value c Hc). lia.
Qed.

Lemma int_of_digits_nonneg ds n :
  Forall (fun c => is_digit c = true) ds -> int_of_digits ds = Ok n -> 0 <= n.
Proof.
  intros Hd. unfold int_of_digits.
  destruct (int_max_str_digits <? length ds)%nat; [done|]. intros [= <-].
  by apply foldl_digits_nonneg.
Qed.

Lemma scan_arg_keeps s arg s' :
  scan_arg s arg = Ok s' ->
  (DynAdapt2.final_loudness s <= 0)%R -> 0 <= DynAdapt2.division s ->
  (DynAdapt2.final_loudness s' <= 0)%R /\
  0 <= DynAdapt2.division s' /\
  DynAdapt2.input s' = DynAdapt2.input s.
Proof.
  unfold scan_arg. intros H Hl Hd.
  assert (H1 : exists s1,
    (DynAdapt2.final_loudness s1 <= 0)%R /\ 0 <= DynAdapt2.division s1 /\
    DynAdapt2.input s1 = DynAdapt2.input s /\
    match search (list_ascii_of_string "loudness:-") (list_ascii_of_string arg) with
    | Some ds =>
      n ← int_of_digits ds;
      Ok (DynAdapt2.Settings (DynAdapt2.input s1) (DynAdapt2.division s1) (IZR (- n)))
    | None => Ok s1
    end = Ok s').
  { destruct (search (list_ascii_of_string "div:") _) as [ds|] eqn:E1.
    - apply search_digits in E1 as [Hds _].
      destruct (int_of_digits ds) as [n|] eqn:En; [|done].
      rewrite bind_ok in H.
      exists (DynAdapt2.Settings (DynAdapt2.input s) n (DynAdapt2.final_loudness s)).
      split; [done|]. split; [by apply (int_of_digits_nonneg ds)|]. split; [done|].
      exact H.
    - rewrite bind_ok in H. by exists s. }
  destruct H1 as (s1 & Hl1 & Hd1 & Hi1 & H1).
  destruct (search (list_ascii_of_string "loudness:-") _) as [ds|] eqn:E2.
  - apply search_digits in E2 as [Hds _].
    destruct (int_of_digits ds) as [n|] eqn:En; [|done].
    rewrite bind_ok in H1. injection H1 as <-. simpl. repeat split; try done.
    apply (int_of_digits_nonneg ds) in En; [|done].
    apply IZR_le. lia.
  - injection H1 as <-. done.
Qed.

Lemma scan_args_keeps args s s' :
  scan_args s args = Ok s' ->
  (DynAdapt2.final_loudness s <= 0)%R -> 0 <= DynAdapt2.division s ->
  (DynAdapt2.final_loudness s' <= 0)%R /\
  0 <= DynAdapt2.division s' /\
  DynAdapt2.input s' = DynAdapt2.input s.
Proof.
  revert s. induction args as [|arg args IH]; intros s H Hl Hd; simpl in H.
  - by injection H as <-.
  - destruct (scan_arg s arg) as [s1|] eqn:E; [|done]. rewrite bind_ok in H.
    destruct (scan_arg_keeps s arg s1 E Hl Hd) as (H1 & H2 & H3).
    destruct (IH s1 H H1 H2) as (H4 & H5 & H6).
    repeat split; try done. by rewrite H6.
Qed.

(** X23: whatever the arguments of the simple variant, the scan, when
    it ends without an exception, leaves a target loudness that is not
    positive and a division that is not negative, for the file named by
    the first argument. *)
Theorem scanned_settings_in_range (argv : list string) (s : DynAdapt2.settings) :
  parse_argv argv = inr (Ok s) ->
  (DynAdapt2.final_loudness s <= 0)%R /\
  0 <= DynAdapt2.division s /\
  argv !! 1%nat = Some (DynAdapt2.input s).
Proof.
  unfold parse_argv. destruct (Z.ltb_spec (len argv) 2) as [|Hlen]; [done|].
  intros [= H].
  destruct (lookup_lt_is_Some_2 argv 1) as [file Hfile]; [unfold len in *; lia|].
  rewrite Hfile in *. simpl in H.
  destruct (scan_args_keeps _ _ _ H) as (H1 & H2 & H3); [simpl; lra|simpl; lia|].
  repeat split; try done. by rewrite H3.
Qed.

Lemma scanned_settings_in_range_witness :
  (DynAdapt2.final_loudness (DynAdapt2.Settings "in.wav" 9 (-23)) <= 0)%R.
Proof.
  apply (scanned_settings_in_range ["dyn_adapt2.py"; "in.wav"]%string). reflexivity.
Defined.

End scan_facts.

Section round_trip.
Local Open Scope Z_scope.

Lemma search_unfold literal s :
  search literal s =
  match match_here literal s with
  | Some ds => Some ds
  | None => match s with [] => None | _ :: s' => search literal s' end
  end.
Proof. by destruct s. Qed.

Lemma match_literal_app literal rest : match_literal literal (literal ++ rest) = Some rest.
Proof.
  induction literal as [|p literal IH]; simpl; [by destruct rest|].
  by rewrite Ascii.eqb_refl.
Qed.

Lemma search_at_start literal ds :
  Forall (fun c => is_digit c = true) ds -> ds <> [] ->
  search literal (literal ++ ds) = Some ds.
Proof.
  intros Hd Hne. rewrite search_unfold. unfold match_here.
  rewrite match_literal_app. simpl. rewrite leading_digits_all by done.
  by destruct ds.
Qed.

Lemma search_no_first p literal s :
  Forall (fun c => fold_case c <> fold_case p) s -> search (p :: literal) s = None.
Proof.
  induction 1 as [|c s Hc _ IH]; [done|].
  rewrite search_unfold. unfold match_here. simpl.
  destruct (Ascii.eqb_spec (fold_case p) (fold_case c)) as [E|_]; [by symmetry in E|].
  simpl. apply IH.
Qed.

Lemma digit_not_letter c p :
  is_digit c = true -> (97 <= nat_of_ascii p)%nat -> fold_case c <> fold_case p.
Proof.
  unfold is_digit, fold_case. intros H Hp.
  apply andb_true_iff in H as [H1 H2]. apply Nat.leb_le in H1, H2.
  replace ((65 <=? nat_of_ascii c)%nat) with false by (symmetry; apply Nat.leb_gt; lia).
  replace ((nat_of_ascii p <=? 90)%nat) with false by (symmetry; apply Nat.leb_gt; lia).
  rewrite andb_false_r. simpl. intros ->. lia.
Qed.

Lemma chars_of_uint_digits u :
  Forall (fun c => is_digit c = true) (list_ascii_of_string (NilEmpty.string_of_uint u)).
Proof. induction u; simpl; constructor; done. Qed.

Lemma chars_of_uint_value u acc :
  foldl (fun acc c => 10 * acc + (Z.of_nat (nat_of_ascii c) - 48)) (Z.of_nat acc)
    (list_ascii_of_string (NilEmpty.string_of_uint u))
  = Z.of_nat (Nat.of_uint_acc u acc).
Proof.
  revert acc. induction u; intros acc; simpl; [done|..];
    rewrite <- IHu, Nat.tail_mul_spec; f_equal;
    match goal with
    | |- context [nat_of_ascii ?c] =>
      let v := eval vm_compute in (nat_of_ascii c) in change (nat_of_ascii c) with v
    end; lia.
Qed.

Lemma decimal_digits n :
  Forall (fun c => is_digit c = true) (list_ascii_of_string (decimal n)) /\
  list_ascii_of_string (decimal n) <> [] /\
  digits_value (list_ascii_of_string (decimal n)) = Z.of_nat n.
Proof.
  unfold decimal. split; [apply chars_of_uint_digits|]. split.
  - destruct (Nat.to_uint n) eqn:E; simpl; try done.
    pose proof (Unsigned.of_to n) as H. rewrite E in H. simpl in H. subst n.
    discriminate E.
  - unfold digits_value. change 0 with (Z.of_nat 0).
    rewrite chars_of_uint_value. fold (Nat.of_uint (Nat.to_uint n)).
    by rewrite Unsigned.of_to.
Qed.

Lemma int_of_digits_short ds :
  (length ds <= int_max_str_digits)%nat -> int_of_digits ds = Ok (digits_value ds).
Proof.
  intros H. unfold int_of_digits.
  by replace (int_max_str_digits <? length ds)%nat with false
    by (symmetry; by apply Nat.ltb_ge).
Qed.

Lemma int_of_digits_long ds :
  (int_max_str_digits < length ds)%nat -> int_of_digits ds = Stop ValueError.
Proof.
  intros H. unfold int_of_digits.
  by replace (int_max_str_digits <? length ds)%nat with true
    by (symmetry; by apply Nat.ltb_lt).
Qed.

Lemma search_div_in_loudness rest :
  search (list_ascii_of_string "div:") (list_ascii_of_string "loudness:-" ++ rest)
  = search (list_ascii_of_string "div:") rest.
Proof. reflexivity. Qed.

Lemma search_loudness_in_div rest :
  search (list_ascii_of_string "loudness:-") (list_ascii_of_string "div:" ++ rest)
  = search (list_ascii_of_string "loudness:-") rest.
Proof. reflexivity. Qed.

Lemma search_loudness_in_upper_div rest :
  search (list_ascii_of_string "loudness:-") (list_ascii_of_string "DIV:" ++ rest)
  = search (list_ascii_of_string "loudness:-") rest.
Proof. reflexivity. Qed.

Lemma search_upper_div ds :
  Forall (fun c => is_digit c = true) ds -> ds <> [] ->
  search (list_ascii_of_string "div:") (list_ascii_of_string "DIV:" ++ ds) = Some ds.
Proof.
  intros Hd Hne. rewrite search_unfold. unfold match_here.
  change (match_literal (list_ascii_of_string "div:") (list_ascii_of_string "DIV:" ++ ds))
    with (Some ds).
  simpl. rewrite leading_digits_all by done. by destruct ds.
Qed.

Lemma search_in_digits p literal ds :
  (97 <= nat_of_ascii p)%nat -> Forall (fun c => is_digit c = true) ds ->
  search (p :: literal) ds = None.
Proof.
  intros Hp Hd. apply search_no_first. eapply Forall_impl; [exact Hd|].
  intros c Hc. by apply digit_not_letter.
Qed.

(** What one argument after the file name gives. *)
Lemma parse_one_arg prog file arg :
  parse_argv [prog; file; arg]
  = inr (scan_arg (DynAdapt2.Settings file 9 (-23)) arg).
Proof.
  unfold parse_argv. simpl. by destruct (scan_arg _ arg).
Qed.

(** X24: [div:N] sets the division to [N] and [loudness:-N] the target
    to [-N], for every natural number [N] whose decimal form has at most
    4300 digits, and leave the other setting at its default; the patterns
    ignore case.  With more than 4300 digits after either pattern,
    [int(match.group(1))] raises [ValueError] and the scan ends there. *)
Theorem arguments_round_trip (prog file : string) :
  (forall n : nat,
     (String.length (decimal n) <= int_max_str_digits)%nat ->
     parse_argv [prog; file; ("div:" ++ decimal n)%string]
       = inr (Ok (DynAdapt2.Settings file (Z.of_nat n) (-23))) /\
     parse_argv [prog; file; ("loudness:-" ++ decimal n)%string]
       = inr (Ok (DynAdapt2.Settings file 9 (IZR (- Z.of_nat n)))) /\
     parse_argv [prog; file; ("DIV:" ++ decimal n)%string]
       = inr (Ok (DynAdapt2.Settings file (Z.of_nat n) (-23)))) /\
  (forall digits : string,
     Forall (fun c => is_digit c = true) (list_ascii_of_string digits) ->
     (int_max_str_digits < String.length digits)%nat ->
     parse_argv [prog; file; ("div:" ++ digits)%string] = inr (Stop ValueError) /\
     parse_argv [prog; file; ("loudness:-" ++ digits)%string] = inr (Stop ValueError)).
Proof.
  split.
  - intros n Hlen.
    destruct (decimal_digits n) as (Hd & Hne & Hv).
    assert (Hint : int_of_digits (list_ascii_of_string (decimal n)) = Ok (Z.of_nat n)).
    { rewrite int_of_digits_short by (by rewrite list_ascii_length). by rewrite Hv. }
    assert (Hnotl : search (list_ascii_of_string "loudness:-")
                      (list_ascii_of_string (decimal n)) = None).
    { apply search_in_digits; [|done]. apply Nat.leb_le. reflexivity. }
    assert (Hnotd : search (list_ascii_of_string "div:")
                      (list_ascii_of_string (decimal n)) = None).
    { apply search_in_digits; [|done]. apply Nat.leb_le. reflexivity. }
    rewrite !parse_one_arg. unfold scan_arg. rewrite !list_ascii_of_string_app.
    split; [|split].
    + rewrite (search_at_start (list_ascii_of_string "div:")) by done.
      rewrite Hint, !bind_ok.
      rewrite search_loudness_in_div, Hnotl. done.
    + rewrite search_div_in_loudness, Hnotd, bind_ok.
      rewrite (search_at_start (list_ascii_of_string "loudness:-")) by done.
      rewrite Hint, bind_ok. done.
    + rewrite search_upper_div by done.
      rewrite Hint, !bind_ok.
      rewrite search_loudness_in_upper_div, Hnotl. done.
  - intros digits Hd Hlen.
    assert (Hne : list_ascii_of_string digits <> []).
    { intros E. rewrite <- list_ascii_length, E in Hlen. by apply Nat.nlt_0_r in Hlen. }
    assert (Hint : int_of_digits (list_ascii_of_string digits) = Stop ValueError).
    { apply int_of_digits_long. by rewrite list_ascii_length. }
    assert (Hnotd : search (list_ascii_of_string "div:")
                      (list_ascii_of_string digits) = None).
    { apply search_in_digits; [|done]. apply Nat.leb_le. reflexivity. }
    rewrite !parse_one_arg. unfold scan_arg. rewrite !list_ascii_of_string_app.
    split.
    + rewrite (search_at_start (list_ascii_of_string "div:")) by done.
      by rewrite Hint.
    + rewrite search_div_in_loudness, Hnotd, bind_ok.
      rewrite (search_at_start (list_ascii_of_string "loudness:-")) by done.
      by rewrite Hint.
Qed.

(** [div:12], and [div:] followed by 4301 digits. *)
Lemma arguments_round_trip_witness :
  parse_argv ["dyn_adapt2.py"%string; "in.wav"%string; ("div:" ++ decimal 12)%string]
    = inr (Ok (DynAdapt2.Settings "in.wav" 12 (-23))) /\
  parse_argv ["dyn_adapt2.py"%string; "in.wav"%string;
              ("div:" ++ string_of_list_ascii (replicate 4301 "1"%char))%string]
    = inr (Stop ValueError).
Proof.
  destruct (arguments_round_trip "dyn_adapt2.py"%string "in.wav"%string) as [Hshort Hlong].
  split.
  - destruct (Hshort 12%nat) as (H & _); [|exact H].
    apply Nat.leb_le. vm_compute. reflexivity.
  - destruct (Hlong (string_of_list_ascii (replicate 4301 "1"%char))) as (H & _); [| |exact H].
    + rewrite list_ascii_of_string_of_list_ascii. by apply Forall_replicate.
    + apply Nat.ltb_lt. vm_compute. reflexivity.
Defined.

End round_trip.
